(** * Voice chat assistant: the client-side request pipeline

    A shallow embedding of the TypeScript sources
      - [utils/cache.ts]          ([Cache], [ResponseCache]),
      - [utils/errorHandler.ts]   ([ErrorHandler], [sleep]),
      - [utils/audioProcessor.ts] ([AudioProcessor]),
      - [utils/apiClient.ts]      ([ApiClient]),
    followed by the properties of the specification that they decide.

    Conventions.  JavaScript numbers that hold integers (timestamps in
    milliseconds, HTTP statuses, attempt counters, byte sizes, sample
    rates) are [Z] or [nat]; a JS [Map] is a [gmap]; a function that can
    throw returns an [Outcome] and a [try]/[catch] is a match on it; the
    services the browser provides (clock, network, audio decoder, UTF-8
    decoder) are parameters. *)

From Stdlib Require Import ZArith String Ascii List Lia QArith.
From stdpp Require Import base gmap strings list fin_maps pretty.

Local Open Scope string_scope.
Local Open Scope Z_scope.

(* ===================================================================== *)
(** * Part I: definitions                                                 *)
(* ===================================================================== *)

(** ** [Cache]: the TTL store of cache.ts *)

Module Cache.

(** [interface CacheItem<T>] *)
Record CacheItem (T : Type) := mkCacheItem {
  data : T;
  timestamp : Z;
  expiresAt : Z
}.
Arguments mkCacheItem {T} _ _ _.
Arguments data {T} _.
Arguments timestamp {T} _.
Arguments expiresAt {T} _.

(** [private storage: Map<string, CacheItem<any>>] *)
Abbreviation Storage T := (gmap string (CacheItem T)).

(** [DEFAULT_TTL = 5 * 60 * 1000] *)
Definition DEFAULT_TTL : Z := 5 * 60 * 1000.

Section Store.
Context {T : Type}.

(** The keys collected by the first loop of [cleanup]: those whose
    item satisfies [now > item.expiresAt].  (A JS Map iterates in
    insertion order, [map_to_list] in key order; the deletions that
    follow do not depend on the order.) *)
Definition expiredKeys (now : Z) (st : Storage T) : list string :=
  omap (fun kv : string * CacheItem T =>
          if bool_decide (now > expiresAt kv.2) then Some kv.1 else None)
       (map_to_list st).

(** [private cleanup()]: [expiredKeys.forEach(key => storage.delete(key))] *)
Definition cleanup (now : Z) (st : Storage T) : Storage T :=
  foldl (fun s k => delete k s) st (expiredKeys now st).

(** [set(key, data, ttl)].  [now] is the value of [Date.now()] read by
    [set] itself and [now'] the one read afterwards by [cleanup]. *)
Definition set (key : string) (d : T) (ttl : Z) (now now' : Z)
    (st : Storage T) : Storage T :=
  cleanup now'
    (<[ key := {| data := d; timestamp := now; expiresAt := now + ttl |} ]> st).

(** [set(key, data)] with the default parameter [ttl = DEFAULT_TTL] *)
Definition set_default (key : string) (d : T) (now now' : Z)
    (st : Storage T) : Storage T :=
  set key d DEFAULT_TTL now now' st.

(** [get(key)]: the result ([None] is JS [null]) and the storage
    afterwards.  [now] is read only when the item exists. *)
Definition get (now : Z) (key : string) (st : Storage T)
    : option T * Storage T :=
  match st !! key with
  | None => (None, st)
  | Some item =>
      if bool_decide (now > expiresAt item)
      then (None, delete key st)
      else (Some (data item), st)
  end.

(** [has(key)]: [this.get(key) !== null] *)
Definition has (now : Z) (key : string) (st : Storage T)
    : bool * Storage T :=
  let '(r, st') := get now key st in
  (match r with Some _ => true | None => false end, st').

(** [delete(key)]: [Map.delete] reports whether the key was there. *)
Definition delete_ (key : string) (st : Storage T) : bool * Storage T :=
  (bool_decide (is_Some (st !! key)), delete key st).

(** [clear()] *)
Definition clear (st : Storage T) : Storage T := ∅.

(** [getStats()]: [{ size: storage.size, keys: Array.from(storage.keys()) }].
    (The keys come in key order here, in insertion order in a JS Map.) *)
Definition getStats (st : Storage T) : nat * list string :=
  (size st, (map_to_list st).*1).

End Store.

(** [static createKey(prefix, ...params)]: [`${prefix}:${params.join(':')}`] *)
Definition createKey (prefix : string) (params : list string) : string :=
  prefix ++ ":" ++ String.concat ":" params.

End Cache.

(** ** Exceptions *)

(** The result of running JavaScript code that may throw a value of type [E]. *)
Inductive Outcome (E A : Type) : Type :=
| Return (a : A)
| Throw (e : E).
Arguments Return {E A} _.
Arguments Throw {E A} _.

(** [try { body } catch (e) { handler(e) }] *)
Definition tryCatch {E A : Type} (body : Outcome E A) (handler : E -> Outcome E A)
    : Outcome E A :=
  match body with
  | Return a => Return a
  | Throw e => handler e
  end.

(** Sequencing of two computations that may throw. *)
Definition andThen {E A B : Type} (c : Outcome E A) (k : A -> Outcome E B)
    : Outcome E B :=
  match c with
  | Return a => k a
  | Throw e => Throw e
  end.

(** ** The error taxonomy of types/api.ts *)

(** [export const ErrorType = { ... } as const] *)
Inductive ErrorType : Type :=
| NETWORK_ERROR
| API_ERROR
| MICROPHONE_ERROR
| TRANSCRIPTION_ERROR
| CHAT_ERROR
| UNKNOWN_ERROR.

(** A non-nullish thrown value, seen through the properties that the
    handlers read: [error instanceof TypeError], [error.name],
    [error.message] and [error.status] ([None] when the property is
    absent, as on every error that [handleResponse] did not build). *)
Record ErrorObject : Type := mkErrorObject {
  instanceofTypeError : bool;
  errName : string;
  errMessage : string;
  errStatus : option Z
}.

(** The argument [error: any] of the handlers. *)
Inductive RawError : Type :=
| JsNull
| JsUndefined
| JsObject (o : ErrorObject).

(** [export interface AppError] *)
Record AppError : Type := mkAppError {
  type : ErrorType;
  message : string;
  originalError : RawError;
  retryable : bool
}.

(** ** [ErrorHandler] and [sleep]: errorHandler.ts *)

Module ErrorHandler.

(** [String.prototype.includes] *)
Fixpoint includes (needle s : string) : bool :=
  String.prefix needle s ||
  match s with
  | EmptyString => false
  | String _ rest => includes needle rest
  end.

(** Reading a property of [null] or [undefined] throws a [TypeError];
    the text is the one V8 produces. *)
Definition nullishPropertyError (value property : string) : ErrorObject :=
  {| instanceofTypeError := true;
     errName := "TypeError";
     errMessage := "Cannot read properties of " ++ value
                   ++ " (reading '" ++ property ++ "')";
     errStatus := None |}.

(** [error.<property>] for [error: any]: the object, or the [TypeError]. *)
Definition readProperty (error : RawError) (property : string)
    : Outcome RawError ErrorObject :=
  match error with
  | JsNull => Throw (JsObject (nullishPropertyError "null" property))
  | JsUndefined => Throw (JsObject (nullishPropertyError "undefined" property))
  | JsObject o => Return o
  end.

(** [static createError(type, message, originalError?, retryable = false)] *)
Definition createError (t : ErrorType) (msg : string) (original : RawError)
    (r : bool) : AppError :=
  {| type := t; message := msg; originalError := original; retryable := r |}.

(** The first test of [handleApiError]:
    [error instanceof TypeError && error.message.includes('fetch')].
    [instanceof] is false, without throwing, on [null] and [undefined]. *)
Definition isFetchTypeError (error : RawError) : bool :=
  match error with
  | JsObject o => instanceofTypeError o && includes "fetch" (errMessage o)
  | _ => false
  end.

(** The guard [if (error.status)]: an absent status and the number 0 are
    falsy, every other number is truthy. *)
Definition truthyStatus (status : option Z) : option Z :=
  match status with
  | Some 0 => None
  | other => other
  end.

(** [static handleApiError(error: any, context: string): AppError] *)
Definition handleApiError (error : RawError) (context : string)
    : Outcome RawError AppError :=
  (* Network errors *)
  if isFetchTypeError error then
    Return (createError NETWORK_ERROR
      "Unable to connect to the server. Please check your internet connection."
      error true)
  else
    andThen (readProperty error "status") (fun o =>
    match truthyStatus (errStatus o) with
    | Some status =>
        (* API response errors: [switch (error.status)] *)
        if bool_decide (status = 400) then
          Return (createError API_ERROR
            "Invalid request. Please try again." error false)
        else if bool_decide (status = 401) then
          Return (createError API_ERROR
            "Authentication failed. Please check your API key." error false)
        else if bool_decide (status = 429) then
          Return (createError API_ERROR
            "Too many requests. Please wait a moment and try again." error true)
        else if bool_decide (status = 500) then
          Return (createError API_ERROR
            "Server error. Please try again later." error true)
        else
          Return (createError API_ERROR
            ("Server error (" ++ pretty status ++ "). Please try again.")
            error true)
    | None =>
        (* Context-specific errors *)
        if bool_decide (context = "transcription") then
          Return (createError TRANSCRIPTION_ERROR
            "Failed to transcribe audio. Please try recording again."
            error true)
        else if bool_decide (context = "chat") then
          Return (createError CHAT_ERROR
            "Failed to get AI response. Please try again." error true)
        else
          (* Default error *)
          Return (createError UNKNOWN_ERROR
            "An unexpected error occurred. Please try again." error true)
    end).

(** [static handleMicrophoneError(error: any): AppError] *)
Definition handleMicrophoneError (error : RawError) : Outcome RawError AppError :=
  andThen (readProperty error "name") (fun o =>
  if bool_decide (errName o = "NotAllowedError") then
    Return (createError MICROPHONE_ERROR
      "Microphone access denied. Please allow microphone permissions and try again."
      error false)
  else if bool_decide (errName o = "NotFoundError") then
    Return (createError MICROPHONE_ERROR
      "No microphone found. Please connect a microphone and try again."
      error false)
  else if bool_decide (errName o = "NotSupportedError") then
    Return (createError MICROPHONE_ERROR
      "Your browser does not support audio recording. Please try a different browser."
      error false)
  else
    Return (createError MICROPHONE_ERROR
      "Failed to access microphone. Please check your microphone settings."
      error true)).

(** [static getRetryDelay(attempt)]:
    [Math.min(1000 * Math.pow(2, attempt), 10000)], for the attempt
    numbers 0, 1, 2, ... that the retry loops pass. *)
Definition getRetryDelay (attempt : nat) : Z :=
  Z.min (1000 * 2 ^ Z.of_nat attempt) 10000.

(** [static shouldRetry(error, attempt, maxAttempts)]:
    [error.retryable === true && attempt < maxAttempts] *)
Definition shouldRetry (error : AppError) (attempt maxAttempts : nat) : bool :=
  retryable error && (attempt <? maxAttempts)%nat.

End ErrorHandler.

(** ** Blobs and the content hash of [ResponseCache]: cache.ts *)

(** A [Blob]: its bytes (each in 0..255) and its MIME type. *)
Record Blob : Type := mkBlob {
  blobBytes : list Z;
  blobType : string
}.

(** [blob.size] *)
Definition size (b : Blob) : Z := Z.of_nat (length (blobBytes b)).

(** The argument [content: string | Blob] of [createHash]. *)
Inductive Content : Type :=
| Text (s : string)
| Binary (b : Blob).

Module ResponseCache.

(** [TRANSCRIPTION_TTL = 10 * 60 * 1000] *)
Definition TRANSCRIPTION_TTL : Z := 10 * 60 * 1000.

(** [CHAT_TTL = 5 * 60 * 1000] *)
Definition CHAT_TTL : Z := 5 * 60 * 1000.

(** The store of the singleton [Cache.getInstance()], holding strings. *)
Abbreviation Storage := (gmap string (Cache.CacheItem string)).

(** [cacheTranscription(audioHash, transcript)] *)
Definition cacheTranscription (audioHash transcript : string) (now now' : Z)
    (st : Storage) : Storage :=
  let key := Cache.createKey "transcription" [audioHash] in
  Cache.set key transcript TRANSCRIPTION_TTL now now' st.

(** [getCachedTranscription(audioHash)] *)
Definition getCachedTranscription (audioHash : string) (now : Z) (st : Storage)
    : option string * Storage :=
  let key := Cache.createKey "transcription" [audioHash] in
  Cache.get now key st.

(** [cacheChatResponse(messageHash, response)] *)
Definition cacheChatResponse (messageHash response : string) (now now' : Z)
    (st : Storage) : Storage :=
  let key := Cache.createKey "chat" [messageHash] in
  Cache.set key response CHAT_TTL now now' st.

(** [getCachedChatResponse(messageHash)] *)
Definition getCachedChatResponse (messageHash : string) (now : Z) (st : Storage)
    : option string * Storage :=
  let key := Cache.createKey "chat" [messageHash] in
  Cache.get now key st.

(** [ToInt32]: the conversion that [<<] and [&] apply to their operands. *)
Definition toInt32 (x : Z) : Z :=
  let m := x mod 2 ^ 32 in
  if m <? 2 ^ 31 then m else m - 2 ^ 32.

(** One round of the loop of [createHash]:
    [hash = ((hash << 5) - hash) + char; hash = hash & hash]. *)
Definition hashStep (hash char : Z) : Z :=
  let hash := (toInt32 (hash * 32) - hash) + char in
  toInt32 hash.

(** The loop, over the UTF-16 code units [data.charCodeAt(i)]. *)
Definition hashCodeUnits (data : list Z) : Z := fold_left hashStep data 0.

(** One digit of [Number.prototype.toString(36)]. *)
Definition digit36 (d : Z) : ascii :=
  if d <? 10 then ascii_of_nat (Z.to_nat (48 + d))
  else ascii_of_nat (Z.to_nat (87 + d)).

Fixpoint toString36_digits (fuel : nat) (n : Z) (acc : string) : string :=
  match fuel with
  | O => acc
  | S fuel' =>
      let acc' := String (digit36 (n mod 36)) acc in
      if n / 36 =? 0 then acc' else toString36_digits fuel' (n / 36) acc'
  end.

(** [n.toString(36)] for [0 <= n <= 2^31], the range of [Math.abs] of a
    32-bit integer: at most seven digits. *)
Definition toString36 (n : Z) : string := toString36_digits 7 n "".

(** The value of a base-36 digit, and [parseInt(s, 36)] on a string of
    such digits: the readers that match [toString(36)]. *)
Definition digitValue (c : ascii) : Z :=
  let code := Z.of_nat (nat_of_ascii c) in
  if code <? 58 then code - 48 else code - 87.

Fixpoint parse36_from (acc : Z) (s : string) : Z :=
  match s with
  | EmptyString => acc
  | String c rest => parse36_from (36 * acc + digitValue c) rest
  end.

Definition parse36 (s : string) : Z := parse36_from 0 s.

(** [/^[0-9a-z]$/] *)
Definition isBase36Digit (c : ascii) : bool :=
  let code := Z.of_nat (nat_of_ascii c) in
  ((48 <=? code) && (code <=? 57)) || ((97 <=? code) && (code <=? 122)).

(** [charCodeAt] over a string of 8-bit characters. *)
Definition charCodes (s : string) : list Z :=
  map (fun c => Z.of_nat (nat_of_ascii c)) (list_ascii_of_string s).

Section Hash.
(** [Blob.text()]: the UTF-8 decoding of the bytes, as UTF-16 code units. *)
Variable blobText : list Z -> list Z.

(** [async createHash(content: string | Blob)] *)
Definition createHash (content : Content) : string :=
  let data :=
    match content with
    | Binary b => blobText (blobBytes b)
    | Text s => charCodes s
    end in
  toString36 (Z.abs (hashCodeUnits data)).

End Hash.

(** [clearAll()] *)
Definition clearAll (st : Storage) : Storage := Cache.clear st.

End ResponseCache.

(** ** [AudioProcessor]: audioProcessor.ts *)

Module AudioProcessor.

(** The floating-point arithmetic of the sample loops is kept abstract:
    an instance gives the sample type (the elements of a [Float32Array])
    and the results of the numeric expressions of the source. *)
Class FloatOps (Sample : Type) : Type := {
  (** the initial content [0] of a new buffer *)
  fzero : Sample;
  (** [alpha * (prevOutput + x - prevInput)] with [alpha = 0.85], as
      stored into a [Float32Array]: [highPassStep prevOutput x prevInput] *)
  highPassStep : Sample -> Sample -> Sample -> Sample;
  (** [s || 0] *)
  orZero : Sample -> Sample;
  (** the 16-bit integer that
      [setInt16(offset, Math.max(-1, Math.min(1, s)) * 0x7FFF * quality)]
      stores, in -32768..32767 *)
  pcm16 : Sample -> Q -> Z;
  (** [Math.floor(length * (target / rate))] *)
  scaledLength : nat -> Z -> Z -> nat;
  (** [Math.floor(i / (target / rate))] *)
  sourceIndex : nat -> Z -> Z -> nat
}.

Section Audio.
Context {Sample : Type} `{FloatOps Sample}.

(** A Web Audio [AudioBuffer]; every channel holds [bufferLength] samples. *)
Record AudioBuffer : Type := mkAudioBuffer {
  sampleRate : Z;
  bufferLength : nat;
  channelData : list (list Sample)
}.

(** [audioBuffer.numberOfChannels] *)
Definition numberOfChannels (b : AudioBuffer) : nat := length (channelData b).

(** What the browser provides to the processor.  Each operation either
    succeeds or throws the given value. *)
Record AudioContext : Type := mkAudioContext {
  (** [new (window.AudioContext || window.webkitAudioContext)()]:
      [Some e] when the constructor throws [e] *)
  constructorThrows : option RawError;
  (** [audioContext.decodeAudioData(arrayBuffer)] *)
  decodeAudioData : list Z -> Outcome RawError AudioBuffer;
  (** [audioContext.createBuffer(channels, length, rate)] throws when the
      browser does not support the arguments: [Some e] is that error *)
  createBufferThrows : nat -> nat -> Z -> option RawError;
  (** [audioContext.close()]: [Some e] when the promise rejects with [e] *)
  closeThrows : option RawError
}.

Definition throwIf (e : option RawError) : Outcome RawError unit :=
  match e with
  | Some err => Throw err
  | None => Return tt
  end.

(** [audioContext.createBuffer(channels, length, rate)]: zero-filled. *)
Definition createBuffer (ctx : AudioContext) (chans len : nat) (rate : Z)
    : Outcome RawError AudioBuffer :=
  andThen (throwIf (createBufferThrows ctx chans len rate)) (fun _ =>
  Return {| sampleRate := rate;
            bufferLength := len;
            channelData := repeat (repeat fzero len) chans |}).

(** [audioBuffer.getChannelData(channel)]; an [IndexSizeError] when the
    buffer has no such channel. *)
Definition getChannelData (b : AudioBuffer) (channel : nat)
    : Outcome RawError (list Sample) :=
  match nth_error (channelData b) channel with
  | Some samples => Return samples
  | None =>
      Throw (JsObject {| instanceofTypeError := false;
                         errName := "IndexSizeError";
                         errMessage := "channel index out of range";
                         errStatus := None |})
  end.

(** The assignments [output[i] = values[i]] for [i] below the length of
    [values]; a typed array ignores writes past its end. *)
Definition assignFrom (output values : list Sample) : list Sample :=
  take (length output) values ++ drop (length values) output.

(** Little-endian [DataView] writes, as the bytes they store. *)
Definition uint16le (v : Z) : list Z := [v mod 256; (v / 256) mod 256].

Definition uint32le (v : Z) : list Z :=
  [v mod 256; (v / 256) mod 256; (v / 65536) mod 256; (v / 16777216) mod 256].

(** [writeString(offset, string)]: one [setUint8] per character. *)
Definition writeString (s : string) : list Z :=
  map (fun c => Z.of_nat (nat_of_ascii c)) (list_ascii_of_string s).

(** The 44 bytes of the WAV header, in the order of their offsets
    0, 4, 8, 12, 16, 20, 22, 24, 28, 32, 34, 36, 40; the writes of
    [audioBufferToBlob] tile the header without gap or overlap. *)
Definition wavHeader (chans len : nat) (rate : Z) : list Z :=
  let c := Z.of_nat chans in
  let n := Z.of_nat len in
  writeString "RIFF"
  ++ uint32le (36 + n * c * 2)
  ++ writeString "WAVE"
  ++ writeString "fmt "
  ++ uint32le 16
  ++ uint16le 1
  ++ uint16le c
  ++ uint32le rate
  ++ uint32le (rate * c * 2)
  ++ uint16le (c * 2)
  ++ uint16le 16
  ++ writeString "data"
  ++ uint32le (n * c * 2).

(** The sample loop of [audioBufferToBlob]: frame by frame, the channels
    interleaved, two bytes per sample. *)
Definition pcmData (b : AudioBuffer) (quality : Q) : list Z :=
  flat_map (fun i =>
    flat_map (fun channel =>
      let sample := nth i (nth channel (channelData b) []) fzero in
      uint16le (pcm16 sample quality))
      (seq 0 (numberOfChannels b)))
    (seq 0 (bufferLength b)).

(** [private async audioBufferToBlob(audioBuffer, quality)] *)
Definition audioBufferToBlob (b : AudioBuffer) (quality : Q) : Blob :=
  {| blobBytes := wavHeader (numberOfChannels b) (bufferLength b) (sampleRate b)
                  ++ pcmData b quality;
     blobType := "audio/wav" |}.

(** The inner loop of [applyNoiseReduction] over one channel. *)
Fixpoint highPass (prevInput prevOutput : Sample) (inputData : list Sample)
    : list Sample :=
  match inputData with
  | [] => []
  | x :: rest =>
      let y := highPassStep prevOutput x prevInput in
      y :: highPass x y rest
  end.

(** The body of the [try] block of [applyNoiseReduction]. *)
Definition noiseReductionBody (ctx : AudioContext) (audioBlob : Blob)
    : Outcome RawError Blob :=
  andThen (throwIf (constructorThrows ctx)) (fun _ =>
  let arrayBuffer := blobBytes audioBlob in
  andThen (decodeAudioData ctx arrayBuffer) (fun audioBuffer =>
  andThen (createBuffer ctx (numberOfChannels audioBuffer)
             (bufferLength audioBuffer) (sampleRate audioBuffer))
          (fun filteredBuffer =>
  let filtered :=
    {| sampleRate := sampleRate filteredBuffer;
       bufferLength := bufferLength filteredBuffer;
       channelData :=
         zip_with (fun outputData inputData =>
                     assignFrom outputData (highPass fzero fzero inputData))
                  (channelData filteredBuffer) (channelData audioBuffer) |} in
  let processedBlob := audioBufferToBlob filtered (8 # 10) in
  andThen (throwIf (closeThrows ctx)) (fun _ =>
  Return processedBlob)))).

(** [async applyNoiseReduction(audioBlob)]: the [catch] clause logs and
    returns the argument. *)
Definition applyNoiseReduction (ctx : AudioContext) (audioBlob : Blob)
    : Outcome RawError Blob :=
  tryCatch (noiseReductionBody ctx audioBlob) (fun _ => Return audioBlob).

(** The downsampling loop of [compressAudio]:
    [targetData[i] = sourceData[Math.floor(i / compressionRatio)] || 0]. *)
Definition downsample (sourceData : list Sample) (len : nat) (target rate : Z)
    : list Sample :=
  map (fun i =>
         match nth_error sourceData (sourceIndex i target rate) with
         | Some s => orZero s
         | None => fzero
         end)
      (seq 0 len).

(** The body of the [try] block of [compressAudio]. *)
Definition compressBody (ctx : AudioContext) (audioBlob : Blob) (quality : Q)
    : Outcome RawError Blob :=
  andThen (throwIf (constructorThrows ctx)) (fun _ =>
  let arrayBuffer := blobBytes audioBlob in
  andThen (decodeAudioData ctx arrayBuffer) (fun audioBuffer =>
  let targetSampleRate := Z.min (sampleRate audioBuffer) 22050 in
  andThen (createBuffer ctx 1
             (scaledLength (bufferLength audioBuffer) targetSampleRate
                (sampleRate audioBuffer))
             targetSampleRate)
          (fun compressedBuffer =>
  andThen (getChannelData audioBuffer 0) (fun sourceData =>
  andThen (getChannelData compressedBuffer 0) (fun targetData =>
  let compressed :=
    {| sampleRate := sampleRate compressedBuffer;
       bufferLength := bufferLength compressedBuffer;
       channelData :=
         [assignFrom targetData
            (downsample sourceData (length targetData) targetSampleRate
               (sampleRate audioBuffer))] |} in
  let compressedBlob := audioBufferToBlob compressed quality in
  andThen (throwIf (closeThrows ctx)) (fun _ =>
  Return compressedBlob)))))).

(** [async compressAudio(audioBlob, quality = 0.7)] *)
Definition compressAudio (ctx : AudioContext) (audioBlob : Blob) (quality : Q)
    : Outcome RawError Blob :=
  tryCatch (compressBody ctx audioBlob quality) (fun _ => Return audioBlob).

(** The browser operations of the [try] block of [applyNoiseReduction]
    all succeed, [audioBuffer] being what [decodeAudioData] resolves to:
    the constructor of the context, the decoding, [createBuffer] with the
    arguments the code passes, and [close]. *)
Definition noiseReductionCompletes (ctx : AudioContext) (audioBlob : Blob)
    (audioBuffer : AudioBuffer) : Prop :=
  constructorThrows ctx = None
  ∧ decodeAudioData ctx (blobBytes audioBlob) = Return audioBuffer
  ∧ createBufferThrows ctx (numberOfChannels audioBuffer)
      (bufferLength audioBuffer) (sampleRate audioBuffer) = None
  ∧ closeThrows ctx = None.

(** The same for the [try] block of [compressAudio], which also reads
    channel 0 of the decoded buffer. *)
Definition compressionCompletes (ctx : AudioContext) (audioBlob : Blob)
    (audioBuffer : AudioBuffer) : Prop :=
  constructorThrows ctx = None
  ∧ decodeAudioData ctx (blobBytes audioBlob) = Return audioBuffer
  ∧ createBufferThrows ctx 1
      (scaledLength (bufferLength audioBuffer)
         (Z.min (sampleRate audioBuffer) 22050) (sampleRate audioBuffer))
      (Z.min (sampleRate audioBuffer) 22050) = None
  ∧ channelData audioBuffer ≠ []
  ∧ closeThrows ctx = None.

(** The field at offset 24 of a WAV header: the sample rate that
    [view.setUint32(24, sampleRate, true)] wrote, read back as
    [getUint32(24, true)]; [None] for a blob shorter than 28 bytes. *)
Definition wavSampleRate (b : Blob) : option Z :=
  match drop 24 (blobBytes b) with
  | b0 :: b1 :: b2 :: b3 :: _ =>
      Some (b0 + 256 * b1 + 65536 * b2 + 16777216 * b3)
  | _ => None
  end.

(** [DataView.getUint16(offset, true)] and [getUint32(offset, true)]:
    the little-endian readers that match the writers above; [None] past
    the end of the buffer. *)
Definition getUint16 (offset : nat) (bytes : list Z) : option Z :=
  match drop offset bytes with
  | b0 :: b1 :: _ => Some (b0 + 256 * b1)
  | _ => None
  end.

Definition getUint32 (offset : nat) (bytes : list Z) : option Z :=
  match drop offset bytes with
  | b0 :: b1 :: b2 :: b3 :: _ =>
      Some (b0 + 256 * b1 + 65536 * b2 + 16777216 * b3)
  | _ => None
  end.

End Audio.

Arguments AudioBuffer Sample : clear implicits.
Arguments AudioContext Sample : clear implicits.

End AudioProcessor.

(** ** Configuration: config/environment.ts *)

Module ENV_CONFIG.

(** [API_TIMEOUT: 30000] *)
Definition API_TIMEOUT : Z := 30000.

(** [RETRY_ATTEMPTS: 3] *)
Definition RETRY_ATTEMPTS : nat := 3.

End ENV_CONFIG.

(** ** [ApiClient]: apiClient.ts *)

Module ApiClient.

(** What a [throw] inside the client can carry: a value raised by the
    platform or by [handleResponse], or an [AppError] built by the
    classifier (the only objects here with a [type] property). *)
Inductive Thrown : Type :=
| ThrownRaw (e : RawError)
| ThrownApp (e : AppError).

(** The body of a request. *)
Inductive Payload : Type :=
| FormData (file : Blob) (filename : string)
| JsonMessage (message : string).

(** A parsed JSON body other than [null], seen through the three
    properties that the client reads; the interfaces [ApiError],
    [TranscribeResponse] and [ChatResponse] declare each of them a
    string. *)
Record Json : Type := mkJson {
  detail : string;
  transcript : string;
  response : string
}.

(** What [response.json()] resolves to: [null], or a value whose
    properties can be read. *)
Inductive JsonValue : Type :=
| JsonNull
| JsonObject (o : Json).

(** [value.<name>] on a parsed body: reading a property of [null] throws
    the [TypeError]. *)
Definition readJson (name : string) (property : Json -> string)
    (value : JsonValue) : Outcome RawError string :=
  match value with
  | JsonNull => Throw (JsObject (ErrorHandler.nullishPropertyError "null" name))
  | JsonObject o => Return (property o)
  end.

(** [result.transcript] and [result.response] *)
Definition readTranscript : JsonValue -> Outcome RawError string :=
  readJson "transcript" transcript.

Definition readResponse : JsonValue -> Outcome RawError string :=
  readJson "response" response.

(** A [Response]: [ok], [status], [statusText] and the result of
    [response.json()], which throws when the body is not JSON. *)
Record Response : Type := mkResponse {
  ok : bool;
  status : Z;
  statusText : string;
  json : Outcome RawError JsonValue
}.

(** What the network does with one request: after [latency] milliseconds
    [fetch] settles, with a response or with the value it rejects with;
    reading the body of a response with [response.json()] then takes
    [bodyTime] more milliseconds. *)
Record NetReply : Type := mkNetReply {
  latency : Z;
  settled : Outcome RawError Response;
  bodyTime : Z
}.

(** The observable effects of the client, in the order they happen. *)
Inductive Event : Type :=
| EvNoiseReduction (input : Blob)
| EvCompress (input : Blob) (quality : Q)
| EvFetch (url : string) (body : Payload)
| EvSleep (ms : Z).

(** The state that a call runs in: the store of the singleton cache, the
    clock ([Date.now()]), how many requests and audio contexts have been
    created so far, and the log of effects.  Time passes while a request
    or a sleep is pending; hashing, the cache and the audio processing
    are taken to be instantaneous. *)
Record World : Type := mkWorld {
  storage : gmap string (Cache.CacheItem string);
  now : Z;
  requests : nat;
  contexts : nat;
  trace : list Event
}.

Definition withStorage (st : gmap string (Cache.CacheItem string)) (w : World)
    : World :=
  {| storage := st; now := now w; requests := requests w;
     contexts := contexts w; trace := trace w |}.

(** An asynchronous computation: a state transformer that may throw. *)
Definition M (A : Type) : Type := World -> Outcome Thrown A * World.

Definition ret {A : Type} (a : A) : M A := fun w => (Return a, w).

Definition throw {A : Type} (e : Thrown) : M A := fun w => (Throw e, w).

Definition bind {A B : Type} (c : M A) (k : A -> M B) : M B :=
  fun w =>
    match c w with
    | (Return a, w') => k a w'
    | (Throw e, w') => (Throw e, w')
    end.

(** [try { body } catch (error) { handler(error) }] *)
Definition tryCatchM {A : Type} (body : M A) (handler : Thrown -> M A) : M A :=
  fun w =>
    match body w with
    | (Return a, w') => (Return a, w')
    | (Throw e, w') => handler e w'
    end.

(** A computation that does not touch the state. *)
Definition liftRaw {A : Type} (o : Outcome RawError A) : M A :=
  fun w =>
    match o with
    | Return a => (Return a, w)
    | Throw e => (Throw (ThrownRaw e), w)
    end.

Notation "x <- c ;; k" := (bind c (fun x => k))
  (at level 100, c at next level, right associativity).
Notation "c ;;; k" := (bind c (fun _ => k))
  (at level 100, right associativity).

(** [new Error(message)] *)
Definition newError (msg : string) : ErrorObject :=
  {| instanceofTypeError := false; errName := "Error"; errMessage := msg;
     errStatus := None |}.

(** The [DOMException] named [AbortError] that [fetch] rejects with when
    its signal is aborted; the message differs between browsers. *)
Definition abortError (msg : string) : RawError :=
  JsObject {| instanceofTypeError := false; errName := "AbortError";
              errMessage := msg; errStatus := None |}.

(** An [AppError] passed where [error: any] is expected: it is no
    [TypeError] and has neither [name] nor [status]. *)
Definition appErrorAsRaw (a : AppError) : RawError :=
  JsObject {| instanceofTypeError := false; errName := "";
              errMessage := message a; errStatus := None |}.

(** [ErrorHandler.handleApiError(error, context)] on a caught value. *)
Definition classify (error : Thrown) (context : string) : M AppError :=
  match error with
  | ThrownRaw e => liftRaw (ErrorHandler.handleApiError e context)
  | ThrownApp a => liftRaw (ErrorHandler.handleApiError (appErrorAsRaw a) context)
  end.

(** [private async handleResponse<T>(response)].  The inner [try] only
    covers [response.json()]; [errorData.detail] is read after it. *)
Definition handleResponse (r : Response) : Outcome RawError JsonValue :=
  if negb (ok r) then
    let errorData :=
      match json r with
      | Return parsed => parsed
      | Throw _ =>
          JsonObject {| detail := "HTTP " ++ pretty (status r) ++ ": "
                                  ++ statusText r;
                        transcript := ""; response := "" |}
      end in
    andThen (readJson "detail" detail errorData) (fun errorDetail =>
    Throw (JsObject {| instanceofTypeError := false; errName := "Error";
                       errMessage := errorDetail;
                       errStatus := Some (status r) |}))
  else json r.

(** The outer [catch] of both methods: an object with a [type] property
    is thrown again, anything else is classified first. *)
Definition rethrowAsAppError {A : Type} (context : string) (error : Thrown)
    : M A :=
  match error with
  | ThrownApp a => throw (ThrownApp a)
  | ThrownRaw e =>
      appError <- liftRaw (ErrorHandler.handleApiError e context) ;;
      throw (ThrownApp appError)
  end.

(** [if (cachedResult)]: [null] and the empty string are falsy. *)
Definition truthy (cachedResult : option string) : bool :=
  match cachedResult with
  | Some s => negb (bool_decide (s = ""))
  | None => false
  end.

Section Client.
Context {Sample : Type} `{AudioProcessor.FloatOps Sample}.

(** [this.baseUrl = ENV_CONFIG.API_URL], taken from the build environment. *)
Variable baseUrl : string.
(** The reply of the network to the [n]-th request issued. *)
Variable net : nat -> NetReply.
(** The [n]-th audio context constructed. *)
Variable audio : nat -> AudioProcessor.AudioContext Sample.
(** [Blob.text()] *)
Variable blobText : list Z -> list Z.
(** The message of the browser's [AbortError]. *)
Variable abortMessage : string.

(** [this.timeout = ENV_CONFIG.API_TIMEOUT] *)
Definition timeout : Z := ENV_CONFIG.API_TIMEOUT.

(** The time a request takes: [timeout] when the timer aborts it, its
    latency when [fetch] rejects, and its latency and the time to read
    the body when [fetch] resolves.  The timer is cleared as soon as
    [fetch] settles, so that nothing bounds the reading of the body. *)
Definition elapsed (reply : NetReply) : Z :=
  if bool_decide (timeout < latency reply) then timeout
  else
    match settled reply with
    | Return _ => latency reply + bodyTime reply
    | Throw _ => latency reply
    end.

(** The state once a request has gone out and its outcome is known (the
    request was aborted, [fetch] rejected, or the body has been read):
    the clock has advanced, the request is logged. *)
Definition afterFetch (url : string) (body : Payload) (w : World) : World :=
  {| storage := storage w;
     now := now w + elapsed (net (requests w));
     requests := S (requests w);
     contexts := contexts w;
     trace := trace w ++ [EvFetch url body] |}.

(** [private async fetchWithTimeout(url, options)].  The timer aborts the
    request when [fetch] has not settled within [timeout] milliseconds;
    [fetch] then rejects with the [AbortError]. *)
Definition fetchWithTimeout (url : string) (body : Payload) : M Response :=
  fun w =>
    let reply := net (requests w) in
    if bool_decide (timeout < latency reply) then
      (Throw (ThrownRaw (abortError abortMessage)), afterFetch url body w)
    else
      match settled reply with
      | Return r => (Return r, afterFetch url body w)
      | Throw e => (Throw (ThrownRaw e), afterFetch url body w)
      end.

(** The state after [ms] milliseconds of sleep. *)
Definition afterSleep (ms : Z) (w : World) : World :=
  {| storage := storage w; now := now w + ms; requests := requests w;
     contexts := contexts w; trace := trace w ++ [EvSleep ms] |}.

(** [sleep(ms)] *)
Definition sleep (ms : Z) : M unit := fun w => (Return tt, afterSleep ms w).

(** [this.audioProcessor.applyNoiseReduction(blob)] *)
Definition applyNoiseReduction (blob : Blob) : M Blob :=
  fun w =>
    let w' := {| storage := storage w; now := now w; requests := requests w;
                 contexts := S (contexts w);
                 trace := trace w ++ [EvNoiseReduction blob] |} in
    liftRaw (AudioProcessor.applyNoiseReduction (audio (contexts w)) blob) w'.

(** [this.audioProcessor.compressAudio(blob, quality)] *)
Definition compressAudio (blob : Blob) (quality : Q) : M Blob :=
  fun w =>
    let w' := {| storage := storage w; now := now w; requests := requests w;
                 contexts := S (contexts w);
                 trace := trace w ++ [EvCompress blob quality] |} in
    liftRaw (AudioProcessor.compressAudio (audio (contexts w)) blob quality) w'.

(** [responseCache.getCachedTranscription(hash)] *)
Definition getCachedTranscription (audioHash : string) : M (option string) :=
  fun w =>
    let '(r, st) :=
      ResponseCache.getCachedTranscription audioHash (now w) (storage w) in
    (Return r, withStorage st w).

(** [responseCache.cacheTranscription(hash, transcript)] *)
Definition cacheTranscription (audioHash text : string) : M unit :=
  fun w =>
    (Return tt,
     withStorage
       (ResponseCache.cacheTranscription audioHash text (now w) (now w)
          (storage w)) w).

(** [responseCache.getCachedChatResponse(hash)] *)
Definition getCachedChatResponse (messageHash : string) : M (option string) :=
  fun w =>
    let '(r, st) :=
      ResponseCache.getCachedChatResponse messageHash (now w) (storage w) in
    (Return r, withStorage st w).

(** [responseCache.cacheChatResponse(hash, response)] *)
Definition cacheChatResponse (messageHash text : string) : M unit :=
  fun w =>
    (Return tt,
     withStorage
       (ResponseCache.cacheChatResponse messageHash text (now w) (now w)
          (storage w)) w).

(** The body of the inner [try] of both retry loops: the request, the
    decoding of the response and the caching of the result.  [field] is
    [result.transcript] or [result.response], [store] the matching
    [cacheTranscription] or [cacheChatResponse]. *)
Definition attemptOnce (url : string) (body : Payload)
    (field : JsonValue -> Outcome RawError string)
    (store : string -> M unit) : M string :=
  resp <- fetchWithTimeout url body ;;
  result <- liftRaw (handleResponse resp) ;;
  text <- liftRaw (field result) ;;
  store text ;;;
  ret text.

(** [for (let attempt = 0; attempt <= retryAttempts; attempt++) { ... }]
    followed by [throw handleApiError(new Error('Max retries exceeded'))].
    The loop is the same text in [transcribeAudio] and [sendChatMessage]
    up to the endpoint, the body, the context and the cache used; it runs
    over the values that [attempt] takes. *)
Fixpoint retryLoop (url : string) (body : Payload) (context : string)
    (field : JsonValue -> Outcome RawError string) (store : string -> M unit)
    (retryAttempts : nat) (attempts : list nat) : M string :=
  match attempts with
  | [] =>
      appError <- liftRaw (ErrorHandler.handleApiError
                             (JsObject (newError "Max retries exceeded"))
                             context) ;;
      throw (ThrownApp appError)
  | attempt :: rest =>
      tryCatchM (attemptOnce url body field store) (fun error =>
        appError <- classify error context ;;
        if (attempt =? retryAttempts)%nat
           || negb (ErrorHandler.shouldRetry appError attempt retryAttempts)
        then throw (ThrownApp appError)
        else
          (* Wait before retrying *)
          sleep (ErrorHandler.getRetryDelay attempt) ;;;
          retryLoop url body context field store retryAttempts rest)
  end.

(** The audio processing of [transcribeAudio]: noise reduction, then
    compression when the original blob is larger than 200 KiB. *)
Definition processAudio (audioBlob : Blob) : M Blob :=
  let originalSize := size audioBlob in
  (* Apply light noise reduction for better transcription *)
  processedBlob <- applyNoiseReduction audioBlob ;;
  (* Only compress larger files to preserve quality for short recordings *)
  if bool_decide (originalSize > 200 * 1024)
  then compressAudio processedBlob (95 # 100)
  else ret processedBlob.

(** [async transcribeAudio(audioBlob, retryAttempts)]; the result is the
    [transcript] of the object returned. *)
Definition transcribeAudio (audioBlob : Blob) (retryAttempts : nat) : M string :=
  tryCatchM
    ((* Check cache first *)
     let audioHash := ResponseCache.createHash blobText (Binary audioBlob) in
     cachedResult <- getCachedTranscription audioHash ;;
     if truthy cachedResult then
       ret (default "" cachedResult)
     else
       (* Apply audio processing *)
       processedBlob <- processAudio audioBlob ;;
       let formData := FormData processedBlob "recording.wav" in
       retryLoop (baseUrl ++ "/transcribe") formData "transcription"
         readTranscript (cacheTranscription audioHash)
         retryAttempts (seq 0 (S retryAttempts)))
    (rethrowAsAppError "transcription").

(** [async sendChatMessage(message, retryAttempts)]; the result is the
    [response] of the object returned. *)
Definition sendChatMessage (msg : string) (retryAttempts : nat) : M string :=
  tryCatchM
    ((* Check cache first *)
     let messageHash := ResponseCache.createHash blobText (Text msg) in
     cachedResult <- getCachedChatResponse messageHash ;;
     if truthy cachedResult then
       ret (default "" cachedResult)
     else
       retryLoop (baseUrl ++ "/chat") (JsonMessage msg) "chat"
         readResponse (cacheChatResponse messageHash)
         retryAttempts (seq 0 (S retryAttempts)))
    (rethrowAsAppError "chat").

(** What the request of one attempt yields, as a function of the reply
    of the network: the [AbortError] on a timeout, the value [fetch]
    rejected with, what [handleResponse] throws, what reading the result
    throws, or the text read from the result. *)
Definition exchange (field : JsonValue -> Outcome RawError string)
    (reply : NetReply) : Outcome RawError string :=
  if bool_decide (timeout < latency reply) then Throw (abortError abortMessage)
  else andThen (andThen (settled reply) handleResponse) field.

(** The state after [k] failed attempts, numbered from [attempt], each
    followed by its backoff sleep. *)
Fixpoint afterRetries (url : string) (body : Payload) (k attempt : nat)
    (w : World) : World :=
  match k with
  | O => w
  | S k' =>
      afterRetries url body k' (S attempt)
        (afterSleep (ErrorHandler.getRetryDelay attempt) (afterFetch url body w))
  end.

End Client.

(** A cache write: it returns, and changes nothing but the store. *)
Definition CacheWrite (store : string -> M unit) : Prop :=
  ∀ (s : string) (w : World), ∃ st, store s w = (Return tt, withStorage st w).

(** How many events of a kind a log records. *)
Definition isFetch (ev : Event) : bool :=
  match ev with EvFetch _ _ => true | _ => false end.

Definition isSleep (ev : Event) : bool :=
  match ev with EvSleep _ => true | _ => false end.

Definition isCompress (ev : Event) : bool :=
  match ev with EvCompress _ _ => true | _ => false end.

Definition countEvents (p : Event -> bool) (evs : list Event) : nat :=
  length (List.filter p evs).


(** The events a retry loop may log: requests to one endpoint with one
    body, and sleeps. *)
Definition LoopEvents (url : string) (body : Payload) (evs : list Event) : Prop :=
  Forall (fun ev => ev = EvFetch url body ∨ ∃ ms, ev = EvSleep ms) evs.

End ApiClient.

(** ** The caller: [processAudio] of App.tsx *)

Module App.
Import ApiClient.

(** The [catch] clause of [processAudio]:
    [if (error instanceof Error && 'type' in error) setError(error)
     else setError(ErrorHandler.handleApiError(error, 'processing'))].
    An [AppError] is an object literal built by [createError], not an
    instance of [Error], and the values the platform throws have no [type]
    property: both take the [else] branch. *)
Definition reportedError (error : Thrown) : Outcome RawError AppError :=
  match error with
  | ThrownApp a => ErrorHandler.handleApiError (appErrorAsRaw a) "processing"
  | ThrownRaw e => ErrorHandler.handleApiError e "processing"
  end.

Section Caller.
Context {Sample : Type} `{AudioProcessor.FloatOps Sample}.
Variable baseUrl : string.
Variable net : nat -> NetReply.
Variable audio : nat -> AudioProcessor.AudioContext Sample.
Variable blobText : list Z -> list Z.
Variable abortMessage : string.

(** [const processAudio = async (audioBlob: Blob) => { ... }]: the two
    calls in sequence, both with the default [retryAttempts]; the result
    is the error handed to [setError], or the user message and the
    assistant message added to the chat. *)
Definition processAudio (audioBlob : Blob) : M (AppError + string * string) :=
  tryCatchM
    ((* Step 1: Transcribe audio *)
     userMessage <- transcribeAudio baseUrl net audio blobText abortMessage
                      audioBlob ENV_CONFIG.RETRY_ATTEMPTS ;;
     (* Step 2: Get ChatGPT response *)
     reply <- sendChatMessage baseUrl net blobText abortMessage userMessage
                ENV_CONFIG.RETRY_ATTEMPTS ;;
     ret (inr (userMessage, reply)))
    (fun error =>
       appError <- liftRaw (reportedError error) ;;
       ret (inl appError)).

End Caller.

End App.

(** ** Concrete environments for the examples *)

Module Scenario.
Import AudioProcessor ApiClient.

(** Samples as integers scaled by 32767, with exact arithmetic: an
    instance to run the processor on concrete inputs. *)
#[global] Instance integerSamples : FloatOps Z := {|
  fzero := 0;
  highPassStep := fun prevOutput x prevInput =>
                    85 * (prevOutput + x - prevInput) / 100;
  orZero := fun s => s;
  pcm16 := fun s quality =>
             (Z.max (-32767) (Z.min 32767 s) * Qnum quality)
             / Zpos (Qden quality);
  scaledLength := fun len target rate =>
                    Z.to_nat (Z.of_nat len * target / rate);
  sourceIndex := fun i target rate => Z.to_nat (Z.of_nat i * rate / target)
|}.

(** A browser without Web Audio: the constructor of the audio context,
    and with it every decoding, throws. *)
Definition noWebAudio : AudioContext Z :=
  {| constructorThrows :=
       Some (JsObject (mkErrorObject true "TypeError"
                         "window.AudioContext is not a constructor" None));
     decodeAudioData := fun _ =>
       Throw (JsObject (mkErrorObject false "EncodingError"
                          "Unable to decode audio data" None));
     createBufferThrows := fun _ _ _ => None;
     closeThrows := None |}.

(** A decoder that yields [len] silent mono frames at 48 kHz. *)
Definition decodesTo48k (len : nat) : AudioContext Z :=
  {| constructorThrows := None;
     decodeAudioData := fun _ =>
       Return {| sampleRate := 48000; bufferLength := len;
                 channelData := [repeat 0 len] |};
     createBufferThrows := fun _ _ _ => None;
     closeThrows := None |}.

(** A network that answers every request at once with [200 OK] and the
    given transcript. *)
Definition answers (text : string) : nat -> NetReply :=
  fun _ =>
    {| latency := 5;
       settled := Return {| ok := true; status := 200; statusText := "OK";
                            json := Return (JsonObject
                                              {| detail := "";
                                                 transcript := text;
                                                 response := text |}) |};
       bodyTime := 1 |}.

(** A network that answers every request with the given error status. *)
Definition refuses (code : Z) : nat -> NetReply :=
  fun _ =>
    {| latency := 5;
       settled := Return {| ok := false; status := code; statusText := "";
                            json := Return (JsonObject
                                              {| detail := "refused";
                                                 transcript := "";
                                                 response := "" |}) |};
       bodyTime := 1 |}.

(** A network that refuses the first [k] requests with the given status
    and answers the later ones. *)
Definition refusesThenAnswers (k : nat) (code : Z) (text : string)
    : nat -> NetReply :=
  fun n => if (n <? k)%nat then refuses code n else answers text n.

(** A network that never answers within the timeout. *)
Definition stalls : nat -> NetReply :=
  fun _ =>
    {| latency := 30001;
       settled := Return {| ok := true; status := 200; statusText := "OK";
                            json := Return (JsonObject
                                              {| detail := "";
                                                 transcript := "late";
                                                 response := "late" |}) |};
       bodyTime := 1 |}.

(** An empty cache at time 0, nothing issued yet. *)
Definition freshWorld : World :=
  {| storage := ∅; now := 0; requests := 0; contexts := 0; trace := [] |}.

(** The bytes of a blob are hashed as they are (one code unit per byte). *)
Definition latin1 : list Z -> list Z := fun bytes => bytes.

(** A 48 kHz mono WAV recording of 102400 silent frames: 204844 bytes. *)
Definition largeRecording : Blob :=
  {| blobBytes := wavHeader 1 (Z.to_nat 102400) 48000
                  ++ repeat 0 (Z.to_nat 204800);
     blobType := "audio/wav" |}.

End Scenario.

(* ===================================================================== *)
(** * Part II: properties                                                 *)
(* ===================================================================== *)

(** ** The cache *)

Section CacheFacts.
Context {T : Type}.
Implicit Types (st : gmap string (Cache.CacheItem T)) (key k : string).

Lemma lookup_foldl_delete (ks : list string) st k :
  foldl (fun s k' => delete k' s) st ks !! k
  = if decide (k ∈ ks) then None else st !! k.
Proof.
  revert st. induction ks as [|k0 ks IH]; intros st; cbn [foldl].
  - destruct (decide (k ∈ [])) as [Hin|_]; [by apply elem_of_nil in Hin | done].
  - rewrite IH. destruct (decide (k ∈ ks)) as [Hin|Hout].
    + rewrite decide_True by (by right). done.
    + destruct (decide (k = k0)) as [->|Hne].
      * rewrite decide_True by (by left). apply lookup_delete_eq.
      * rewrite decide_False by (by intros [?|?]%elem_of_cons).
        by apply lookup_delete_ne.
Qed.

Lemma elem_of_expiredKeys (now : Z) st k :
  k ∈ Cache.expiredKeys now st
  ↔ ∃ item, st !! k = Some item ∧ now > Cache.expiresAt item.
Proof.
  unfold Cache.expiredKeys. rewrite list_elem_of_omap. split.
  - intros [[k' item] [Hin Hsome]]. simpl in Hsome.
    case_bool_decide; [|done]. injection Hsome as ->.
    apply elem_of_map_to_list in Hin. eauto.
  - intros (item & Hlook & Hexp). exists (k, item). split.
    + by apply elem_of_map_to_list.
    + simpl. by rewrite bool_decide_eq_true_2.
Qed.

(** [cleanup] removes exactly the items with [now > expiresAt]. *)
Lemma lookup_cleanup (now : Z) st k :
  Cache.cleanup now st !! k
  = match st !! k with
    | Some item =>
        if bool_decide (now > Cache.expiresAt item) then None else Some item
    | None => None
    end.
Proof.
  unfold Cache.cleanup. rewrite lookup_foldl_delete.
  case_decide as Hin.
  - apply elem_of_expiredKeys in Hin as (item & -> & Hexp).
    by rewrite bool_decide_eq_true_2.
  - destruct (st !! k) as [item|] eqn:Hlook; [|done].
    case_bool_decide as Hexp; [|done].
    exfalso. apply Hin, elem_of_expiredKeys. eauto.
Qed.

(** What [set] leaves under the key it wrote. *)
Lemma lookup_set_eq key (v : T) (ttl now now' : Z) st :
  Cache.set key v ttl now now' st !! key
  = if bool_decide (now' > now + ttl) then None
    else Some {| Cache.data := v; Cache.timestamp := now;
                 Cache.expiresAt := now + ttl |}.
Proof.
  unfold Cache.set. rewrite lookup_cleanup, lookup_insert_eq. done.
Qed.

Lemma get_fst (t : Z) key st :
  (Cache.get t key st).1
  = match st !! key with
    | Some item =>
        if bool_decide (t > Cache.expiresAt item) then None
        else Some (Cache.data item)
    | None => None
    end.
Proof.
  unfold Cache.get. destruct (st !! key) as [item|]; [|done].
  by case_bool_decide.
Qed.

Lemma get_snd (t : Z) key st :
  (Cache.get t key st).2
  = match st !! key with
    | Some item =>
        if bool_decide (t > Cache.expiresAt item) then delete key st else st
    | None => st
    end.
Proof.
  unfold Cache.get. destruct (st !! key) as [item|]; [|done].
  by case_bool_decide.
Qed.

Lemma has_get (t : Z) key st :
  Cache.has t key st
  = (match (Cache.get t key st).1 with Some _ => true | None => false end,
     (Cache.get t key st).2).
Proof. unfold Cache.has. by destruct (Cache.get t key st). Qed.

(** C6. After [set(key, v, ttl)] at time [now] (its cleanup running at
    [now']), a [get(key)] at a time [t] within the ttl ([now' <= t <=
    now + ttl]) returns [v]; a [get(key)] at a time past the expiry
    returns absent and leaves no entry under the key, so that a later
    [has(key)] is false; the same holds for any stored entry whose
    expiry has passed, which [get] deletes; and a stored entry is
    returned by [get], and reported by [has], exactly when
    [t <= expiresAt]. *)
Theorem cache_get_respects_ttl key (v : T) (ttl now now' t : Z) st :
  (now' ≤ t → t ≤ now + ttl →
     (Cache.get t key (Cache.set key v ttl now now' st)).1 = Some v)
  ∧ (now + ttl < t →
     (Cache.get t key (Cache.set key v ttl now now' st)).1 = None
     ∧ (Cache.get t key (Cache.set key v ttl now now' st)).2 !! key = None
     ∧ ∀ t', (Cache.has t' key
                (Cache.get t key (Cache.set key v ttl now now' st)).2).1
             = false)
  ∧ (∀ item, st !! key = Some item → Cache.expiresAt item < t →
     Cache.get t key st = (None, delete key st)
     ∧ ∀ t', Cache.has t' key (delete key st) = (false, delete key st))
  ∧ (∀ item, st !! key = Some item →
     ((Cache.get t key st).1 = Some (Cache.data item)
        ↔ t ≤ Cache.expiresAt item)
     ∧ ((Cache.has t key st).1 = true ↔ t ≤ Cache.expiresAt item)).
Proof.
  split; [|split; [|split]].
  - intros Hle1 Hle2. rewrite get_fst, lookup_set_eq.
    rewrite bool_decide_eq_false_2 by lia. simpl.
    by rewrite bool_decide_eq_false_2 by lia.
  - intros Hlt.
    assert (Hgone :
      (Cache.get t key (Cache.set key v ttl now now' st)).2 !! key = None).
    { rewrite get_snd, lookup_set_eq. case_bool_decide.
      - by rewrite lookup_set_eq, bool_decide_eq_true_2.
      - simpl. rewrite bool_decide_eq_true_2 by lia. apply lookup_delete_eq. }
    split; [|split; [done|]].
    + rewrite get_fst, lookup_set_eq. case_bool_decide; [done|]. simpl.
      by rewrite bool_decide_eq_true_2 by lia.
    + intros t'. rewrite has_get. simpl. by rewrite get_fst, Hgone.
  - intros item Hlook Hexp. split.
    + unfold Cache.get. rewrite Hlook.
      by rewrite bool_decide_eq_true_2 by lia.
    + intros t'. unfold Cache.has, Cache.get. by rewrite lookup_delete_eq.
  - intros item Hlook. rewrite has_get. simpl. rewrite get_fst, Hlook.
    case_bool_decide; split; split; intros; try done; try lia.
Qed.

(** C10. Reading never changes a live entry: when the entry under [key]
    has not expired, [get] and [has] return the store as it was (so the
    expiry is not refreshed); in every case the store after a read is
    either the store before it or that store with the expired entry
    under [key] deleted; and no read changes what is stored under
    another key. *)
Theorem cache_read_frame key (t : Z) st :
  (∀ item, st !! key = Some item → t ≤ Cache.expiresAt item →
     Cache.get t key st = (Some (Cache.data item), st)
     ∧ Cache.has t key st = (true, st))
  ∧ ((Cache.get t key st).2 = st
     ∨ (∃ item, st !! key = Some item ∧ t > Cache.expiresAt item
        ∧ (Cache.get t key st).2 = delete key st))
  ∧ (Cache.has t key st).2 = (Cache.get t key st).2
  ∧ (∀ k, k ≠ key →
     (Cache.get t key st).2 !! k = st !! k
     ∧ (Cache.has t key st).2 !! k = st !! k).
Proof.
  split; [|split; [|split]].
  - intros item Hlook Hlive. unfold Cache.has, Cache.get. rewrite Hlook.
    by rewrite bool_decide_eq_false_2 by lia.
  - rewrite get_snd. destruct (st !! key) as [item|] eqn:Hlook; [|by left].
    case_bool_decide; [right; eauto | by left].
  - by rewrite has_get.
  - intros k Hne. rewrite has_get. simpl. rewrite get_snd.
    destruct (st !! key) as [item|]; [|done].
    case_bool_decide; [|done]. by rewrite lookup_delete_ne.
Qed.

End CacheFacts.

Lemma cache_get_respects_ttl_witness :
  (Cache.get 600 "k" (Cache.set "k" "v" 1000 0 0 ∅)).1 = Some "v"
  ∧ (Cache.get 1001 "k" (Cache.set "k" "v" 1000 0 0 ∅)).1 = None.
Proof.
  pose proof (cache_get_respects_ttl "k" "v" 1000 0 0 600 ∅) as (H1 & _).
  pose proof (cache_get_respects_ttl "k" "v" 1000 0 0 1001 ∅) as (_ & H2 & _).
  split.
  - apply H1; lia.
  - apply H2; lia.
Defined.

Lemma cache_read_frame_witness :
  Cache.get 5 "k" (<["k" := Cache.mkCacheItem "v" 0 10]> ∅)
  = (Some "v", <["k" := Cache.mkCacheItem "v" 0 10]> ∅).
Proof.
  pose proof (cache_read_frame "k" 5 (<["k" := Cache.mkCacheItem "v" 0 10]> ∅))
    as (H1 & _).
  apply (H1 (Cache.mkCacheItem "v" 0 10)).
  - apply lookup_insert_eq.
  - simpl. lia.
Defined.

(** ** The error classifier *)

Section ClassifierFacts.
Import ErrorHandler.

(** Every branch of [handleApiError] keeps the value it was given as
    [originalError]. *)
Lemma handleApiError_originalError error context a :
  handleApiError error context = Return a → originalError a = error.
Proof.
  unfold handleApiError. destruct (isFetchTypeError error).
  - by intros [= <-].
  - destruct error as [| |o]; simpl; try done.
    destruct (truthyStatus (errStatus o)) as [s|];
      repeat case_bool_decide; by intros [= <-].
Qed.

(** C3, as the code has it. [handleApiError] returns an [AppError] for
    every value that is not [null] or [undefined], whatever properties it
    has and whatever the context; on [null] and on [undefined] the read
    of [error.status] throws a [TypeError]. *)
Theorem handleApiError_total_on_objects :
  (∀ (o : ErrorObject) (context : string),
     ∃ a, handleApiError (JsObject o) context = Return a)
  ∧ (∀ context,
       handleApiError JsNull context
       = Throw (JsObject (nullishPropertyError "null" "status")))
  ∧ (∀ context,
       handleApiError JsUndefined context
       = Throw (JsObject (nullishPropertyError "undefined" "status"))).
Proof.
  split; [|split]; [|done|done].
  intros o context. unfold handleApiError.
  destruct (isFetchTypeError (JsObject o)); [eauto|]. simpl.
  destruct (truthyStatus (errStatus o)) as [s|];
    repeat case_bool_decide; eauto.
Qed.

(** C3 fails as stated: on [null] the classifier throws. *)
Lemma handleApiError_null_throws :
  ¬ (∀ (error : RawError) (context : string),
       ∃ a, handleApiError error context = Return a).
Proof.
  intros Htotal. destruct (Htotal JsNull "transcription") as [a Ha].
  discriminate Ha.
Qed.

(** C4. For a raw error that carries an HTTP status [s] (the property is
    present and, being an HTTP status, not 0) and that the first test has
    not taken for a network failure, the classifier answers [API_ERROR]
    in every context: not retryable for 400 and 401, retryable for 429,
    for 500 and for every other status; and a capture failure named
    [NotAllowedError] (permission denied) is a [MICROPHONE_ERROR] that is
    not retryable. *)
Theorem classifier_status_table (o : ErrorObject) (context : string) (s : Z) :
  isFetchTypeError (JsObject o) = false →
  errStatus o = Some s →
  s ≠ 0 →
  (∃ a, handleApiError (JsObject o) context = Return a
        ∧ type a = API_ERROR
        ∧ originalError a = JsObject o
        ∧ (s = 400 → retryable a = false)
        ∧ (s = 401 → retryable a = false)
        ∧ (s = 429 → retryable a = true)
        ∧ (s = 500 → retryable a = true)
        ∧ (s ≠ 400 → s ≠ 401 → retryable a = true))
  ∧ (∀ m : ErrorObject, errName m = "NotAllowedError" →
       ∃ a, handleMicrophoneError (JsObject m) = Return a
            ∧ type a = MICROPHONE_ERROR
            ∧ retryable a = false).
Proof.
  intros Hnet Hstatus Hs. split.
  - unfold handleApiError. rewrite Hnet. simpl. rewrite Hstatus.
    assert (truthyStatus (Some s) = Some s) as -> by (by destruct s).
    repeat case_bool_decide; eexists; (split; [reflexivity|]);
      simpl; repeat split; intros; try done; lia.
  - intros m Hname. unfold handleMicrophoneError. simpl.
    rewrite bool_decide_eq_true_2 by done. eauto.
Qed.

Lemma classifier_status_table_witness :
  (∃ a, handleApiError (JsObject (mkErrorObject false "Error"
                                    "Service Unavailable" (Some 503))) "chat"
        = Return a
        ∧ type a = API_ERROR ∧ retryable a = true)
  ∧ (∃ a, handleMicrophoneError
            (JsObject (mkErrorObject false "NotAllowedError"
                         "Permission denied" None)) = Return a
          ∧ type a = MICROPHONE_ERROR ∧ retryable a = false).
Proof.
  destruct (classifier_status_table
              (mkErrorObject false "Error" "Service Unavailable" (Some 503))
              "chat" 503)
    as [(a & Ha & Hty & _ & _ & _ & _ & _ & Hother) Hmic].
  - reflexivity.
  - reflexivity.
  - lia.
  - split.
    + exists a. split; [exact Ha|]. split; [exact Hty|]. apply Hother; lia.
    + apply Hmic. reflexivity.
Defined.

End ClassifierFacts.

(** ** The audio processor *)

Section AudioFacts.
Import AudioProcessor.
Context {Sample : Type} `{FloatOps Sample}.

(** The four bytes of [setUint32(_, v, true)] read back as one number. *)
Lemma uint32le_value (v : Z) :
  v mod 256 + 256 * ((v / 256) mod 256) + 65536 * ((v / 65536) mod 256)
  + 16777216 * ((v / 16777216) mod 256)
  = v mod 2 ^ 32.
Proof.
  replace (v / 65536) with (v / 256 / 256)
    by (rewrite Z.div_div by lia; done).
  replace (v / 16777216) with (v / 256 / 256 / 256)
    by (rewrite !Z.div_div by lia; done).
  replace (2 ^ 32) with (256 * (256 * (256 * 256))) by done.
  rewrite !Z.rem_mul_r by lia. lia.
Qed.

(** The field at offset 24 of a blob that starts with a WAV header. *)
Lemma wavSampleRate_wavHeader (chans len : nat) (rate : Z) (rest : list Z)
    (mime : string) :
  wavSampleRate {| blobBytes := wavHeader chans len rate ++ rest;
                   blobType := mime |}
  = Some (rate mod 2 ^ 32).
Proof.
  unfold wavSampleRate, wavHeader. cbn [blobBytes].
  change (writeString "RIFF") with [82; 73; 70; 70].
  change (writeString "WAVE") with [87; 65; 86; 69].
  change (writeString "fmt ") with [102; 109; 116; 32].
  unfold uint32le, uint16le. cbn [app drop].
  f_equal. rewrite <- uint32le_value. lia.
Qed.

(** The sample rate that [audioBufferToBlob] writes is the one of the
    buffer (as an unsigned 32-bit number). *)
Lemma wavSampleRate_audioBufferToBlob (b : AudioBuffer Sample) (quality : Q) :
  wavSampleRate (audioBufferToBlob b quality) = Some (sampleRate b mod 2 ^ 32).
Proof. apply wavSampleRate_wavHeader. Qed.

Lemma throwIf_cases (e : option RawError) :
  (e = None ∧ throwIf e = Return tt) ∨ (∃ err, e = Some err ∧ throwIf e = Throw err).
Proof. destruct e; [right|left]; eauto. Qed.

Lemma applyNoiseReduction_returns (ctx : AudioContext Sample) (blob : Blob) :
  ∃ out, applyNoiseReduction ctx blob = Return out.
Proof.
  unfold applyNoiseReduction.
  destruct (noiseReductionBody ctx blob); simpl; eauto.
Qed.

Lemma compressAudio_returns (ctx : AudioContext Sample) (blob : Blob) (quality : Q) :
  ∃ out, compressAudio ctx blob quality = Return out.
Proof.
  unfold compressAudio.
  destruct (compressBody ctx blob quality); simpl; eauto.
Qed.

Lemma applyNoiseReduction_decode_fails (ctx : AudioContext Sample) (blob : Blob) e :
  decodeAudioData ctx (blobBytes blob) = Throw e →
  applyNoiseReduction ctx blob = Return blob.
Proof.
  intros Hdec. unfold applyNoiseReduction, noiseReductionBody.
  destruct (constructorThrows ctx); [done|]. cbn [throwIf andThen].
  by rewrite Hdec.
Qed.

Lemma compressAudio_decode_fails (ctx : AudioContext Sample) (blob : Blob)
    (quality : Q) e :
  decodeAudioData ctx (blobBytes blob) = Throw e →
  compressAudio ctx blob quality = Return blob.
Proof.
  intros Hdec. unfold compressAudio, compressBody.
  destruct (constructorThrows ctx); [done|]. cbn [throwIf andThen].
  by rewrite Hdec.
Qed.

(** The [try] block of [applyNoiseReduction] returns when its browser
    operations succeed, with a WAV blob that has the rate, the length and
    the channel count of the decoded buffer. *)
Lemma noiseReductionBody_completes (ctx : AudioContext Sample) (blob : Blob)
    (buf : AudioBuffer Sample) :
  noiseReductionCompletes ctx blob buf →
  ∃ filtered,
    noiseReductionBody ctx blob = Return (audioBufferToBlob filtered (8 # 10))
    ∧ sampleRate filtered = sampleRate buf
    ∧ bufferLength filtered = bufferLength buf
    ∧ numberOfChannels filtered = numberOfChannels buf.
Proof.
  intros (Hnew & Hdec & Hbuf & Hclose).
  unfold noiseReductionBody, createBuffer.
  rewrite Hnew. cbn [throwIf andThen]. rewrite Hdec. cbn [andThen].
  rewrite Hbuf. cbn [throwIf andThen]. rewrite Hclose. cbn [throwIf andThen].
  eexists. split; [reflexivity|]. cbn [sampleRate bufferLength].
  split; [done|]. split; [done|].
  unfold numberOfChannels at 1. cbn [channelData].
  rewrite length_zip_with, repeat_length. unfold numberOfChannels. lia.
Qed.

(** It returns only then. *)
Lemma noiseReductionBody_returns (ctx : AudioContext Sample) (blob out : Blob) :
  noiseReductionBody ctx blob = Return out →
  ∃ buf, noiseReductionCompletes ctx blob buf.
Proof.
  unfold noiseReductionBody, createBuffer, noiseReductionCompletes.
  destruct (constructorThrows ctx); [done|]. cbn [throwIf andThen].
  destruct (decodeAudioData ctx (blobBytes blob)) as [buf|]; [|done].
  cbn [andThen].
  destruct (createBufferThrows ctx _ _ _) eqn:Hbuf; [done|].
  cbn [throwIf andThen].
  destruct (closeThrows ctx); [done|]. intros _. by exists buf.
Qed.

(** The [try] block of [compressAudio] returns when its browser
    operations succeed, with a mono WAV blob at [min(rate, 22050)]. *)
Lemma compressBody_completes (ctx : AudioContext Sample) (blob : Blob)
    (quality : Q) (buf : AudioBuffer Sample) :
  compressionCompletes ctx blob buf →
  ∃ compressed,
    compressBody ctx blob quality = Return (audioBufferToBlob compressed quality)
    ∧ sampleRate compressed = Z.min (sampleRate buf) 22050
    ∧ bufferLength compressed
      = scaledLength (bufferLength buf) (Z.min (sampleRate buf) 22050)
          (sampleRate buf)
    ∧ numberOfChannels compressed = 1%nat.
Proof.
  intros (Hnew & Hdec & Hbuf & Hchan & Hclose).
  unfold compressBody, createBuffer.
  rewrite Hnew. cbn [throwIf andThen]. rewrite Hdec. cbn [andThen].
  rewrite Hbuf. cbn [throwIf andThen].
  unfold getChannelData at 1.
  destruct (channelData buf) as [|sourceData others] eqn:Hsource; [done|].
  cbn [nth_error andThen]. unfold getChannelData.
  cbn [channelData repeat nth_error andThen].
  rewrite Hclose. cbn [throwIf andThen].
  eexists. split; [reflexivity|]. done.
Qed.

(** It returns only then. *)
Lemma compressBody_returns (ctx : AudioContext Sample) (blob out : Blob)
    (quality : Q) :
  compressBody ctx blob quality = Return out →
  ∃ buf, compressionCompletes ctx blob buf.
Proof.
  unfold compressBody, createBuffer, compressionCompletes.
  destruct (constructorThrows ctx); [done|]. cbn [throwIf andThen].
  destruct (decodeAudioData ctx (blobBytes blob)) as [buf|]; [|done].
  cbn [andThen].
  destruct (createBufferThrows ctx _ _ _) eqn:Hbuf; [done|].
  cbn [throwIf andThen]. unfold getChannelData at 1.
  destruct (channelData buf) as [|sourceData others] eqn:Hsource; [done|].
  cbn [nth_error andThen]. unfold getChannelData.
  cbn [channelData repeat nth_error andThen].
  destruct (closeThrows ctx); [done|]. intros _. exists buf.
  by rewrite Hsource.
Qed.

(** Each step does what its [try] block does when that returns, and
    returns its argument when it throws. *)
Lemma applyNoiseReduction_by_body (ctx : AudioContext Sample) (blob : Blob) :
  applyNoiseReduction ctx blob
  = Return match noiseReductionBody ctx blob with
           | Return processedBlob => processedBlob
           | Throw _ => blob
           end.
Proof. unfold applyNoiseReduction. by destruct (noiseReductionBody ctx blob). Qed.

Lemma compressAudio_by_body (ctx : AudioContext Sample) (blob : Blob)
    (quality : Q) :
  compressAudio ctx blob quality
  = Return match compressBody ctx blob quality with
           | Return compressedBlob => compressedBlob
           | Throw _ => blob
           end.
Proof. unfold compressAudio. by destruct (compressBody ctx blob quality). Qed.

(** Without a buffer for which the operations succeed, each step returns
    its argument. *)
Lemma applyNoiseReduction_falls_back (ctx : AudioContext Sample) (blob : Blob) :
  (∀ buf, ¬ noiseReductionCompletes ctx blob buf) →
  applyNoiseReduction ctx blob = Return blob
  ∧ ∃ e, noiseReductionBody ctx blob = Throw e.
Proof.
  intros Hnone. rewrite applyNoiseReduction_by_body.
  destruct (noiseReductionBody ctx blob) as [out|e] eqn:Hbody; [|eauto].
  destruct (noiseReductionBody_returns ctx blob out Hbody) as [buf Hbuf].
  by destruct (Hnone buf).
Qed.

Lemma compressAudio_falls_back (ctx : AudioContext Sample) (blob : Blob)
    (quality : Q) :
  (∀ buf, ¬ compressionCompletes ctx blob buf) →
  compressAudio ctx blob quality = Return blob
  ∧ ∃ e, compressBody ctx blob quality = Throw e.
Proof.
  intros Hnone. rewrite compressAudio_by_body.
  destruct (compressBody ctx blob quality) as [out|e] eqn:Hbody; [|eauto].
  destruct (compressBody_returns ctx blob out quality Hbody) as [buf Hbuf].
  by destruct (Hnone buf).
Qed.

End AudioFacts.

(** ** The processing pipeline of [transcribeAudio] *)

Section PipelineFacts.
Import AudioProcessor ApiClient.
Context {Sample : Type} `{FloatOps Sample}.
Variable audio : nat -> AudioContext Sample.

(** The state after the noise-reduction step. *)
Lemma applyNoiseReduction_run (blob nr : Blob) (w : World) :
  AudioProcessor.applyNoiseReduction (audio (contexts w)) blob = Return nr →
  ApiClient.applyNoiseReduction audio blob w
  = (Return nr,
     {| storage := storage w; now := now w; requests := requests w;
        contexts := S (contexts w);
        trace := trace w ++ [EvNoiseReduction blob] |}).
Proof.
  intros Hnr. unfold ApiClient.applyNoiseReduction, liftRaw. by rewrite Hnr.
Qed.

Lemma compressAudio_run (blob out : Blob) (quality : Q) (w : World) :
  AudioProcessor.compressAudio (audio (contexts w)) blob quality = Return out →
  ApiClient.compressAudio audio blob quality w
  = (Return out,
     {| storage := storage w; now := now w; requests := requests w;
        contexts := S (contexts w);
        trace := trace w ++ [EvCompress blob quality] |}).
Proof.
  intros Hout. unfold ApiClient.compressAudio, liftRaw. by rewrite Hout.
Qed.

(** Processing returns a blob, touches neither the cache nor the clock
    nor the network, and logs its steps. *)
Lemma processAudio_run (blob : Blob) (w : World) :
  ∃ out evs,
    processAudio audio blob w
    = (Return out,
       {| storage := storage w; now := now w; requests := requests w;
          contexts := contexts w + length evs;
          trace := trace w ++ evs |})
    ∧ Forall (fun ev => isFetch ev = false ∧ isSleep ev = false) evs.
Proof.
  destruct (applyNoiseReduction_returns (audio (contexts w)) blob) as [nr Hnr].
  unfold processAudio, bind. rewrite (applyNoiseReduction_run _ nr) by done.
  case_bool_decide.
  - destruct (compressAudio_returns (audio (S (contexts w))) nr (95 # 100))
      as [out Hout].
    rewrite (compressAudio_run _ out) by done. cbn [contexts trace storage now requests].
    exists out, [EvNoiseReduction blob; EvCompress nr (95 # 100)].
    split.
    + f_equal. f_equal; [simpl; lia | by rewrite <- app_assoc].
    + repeat constructor.
  - exists nr, [EvNoiseReduction blob]. split.
    + unfold ret. f_equal. f_equal. simpl; lia.
    + repeat constructor.
Qed.

(** C8, as the code has it. Every blob goes through noise reduction,
    which returns a WAV blob at the rate of the decoded audio when its
    browser operations succeed and its argument otherwise. A blob of at
    most 200 KiB goes no further: compression is not invoked and the
    output is the noise-reduced blob. For a blob above 200 KiB compression
    is invoked on the noise-reduced blob. When the compression step
    completes (the audio context is constructed, the blob decodes, the
    target buffer is created, channel 0 is read and the context closes),
    its output is a WAV blob whose sample rate is [min(rate, 22050)], at
    most 22050 Hz and at most [rate], the original sample rate that the
    code reads: [audioBuffer.sampleRate] of the audio decoded from the
    blob handed to the step. That is the rate at which the recording
    itself was decoded when noise reduction completed and the browser
    decodes the noise-reduced blob at the rate written in its header.
    When the step does not complete it passes its input through, at the
    rate it had. *)
Theorem compression_only_above_threshold (blob : Blob) (w : World) :
  ∃ nr out w',
    AudioProcessor.applyNoiseReduction (audio (contexts w)) blob = Return nr
    ∧ processAudio audio blob w = (Return out, w')
    ∧ (∀ buf, noiseReductionCompletes (audio (contexts w)) blob buf →
         wavSampleRate nr = Some (sampleRate buf mod 2 ^ 32))
    ∧ ((∀ buf, ¬ noiseReductionCompletes (audio (contexts w)) blob buf) →
         nr = blob)
    ∧ (size blob ≤ 200 * 1024 →
         out = nr
         ∧ trace w' = (trace w ++ [EvNoiseReduction blob])%list
         ∧ countEvents isCompress (trace w') = countEvents isCompress (trace w))
    ∧ (size blob > 200 * 1024 →
         trace w' = (trace w ++ [EvNoiseReduction blob; EvCompress nr (95 # 100)])%list
         ∧ AudioProcessor.compressAudio (audio (S (contexts w))) nr (95 # 100)
           = Return out
         ∧ (∀ buf, compressionCompletes (audio (S (contexts w))) nr buf →
              compressBody (audio (S (contexts w))) nr (95 # 100) = Return out
              ∧ wavSampleRate out = Some (Z.min (sampleRate buf) 22050 mod 2 ^ 32)
              ∧ (0 ≤ sampleRate buf →
                 ∃ rate, wavSampleRate out = Some rate
                         ∧ rate = Z.min (sampleRate buf) 22050
                         ∧ rate ≤ 22050 ∧ rate ≤ sampleRate buf))
         ∧ ((∀ buf, ¬ compressionCompletes (audio (S (contexts w))) nr buf) →
              out = nr
              ∧ ∃ e, compressBody (audio (S (contexts w))) nr (95 # 100) = Throw e)
         ∧ (∀ cmp,
              compressBody (audio (S (contexts w))) nr (95 # 100) = Return cmp →
              out = cmp
              ∧ ∃ buf, compressionCompletes (audio (S (contexts w))) nr buf)
         ∧ (∀ e,
              compressBody (audio (S (contexts w))) nr (95 # 100) = Throw e →
              out = nr)
         ∧ (∀ original buf,
              noiseReductionCompletes (audio (contexts w)) blob original →
              compressionCompletes (audio (S (contexts w))) nr buf →
              wavSampleRate nr = Some (sampleRate buf) →
              0 ≤ sampleRate original < 2 ^ 32 →
              ∃ rate, wavSampleRate out = Some rate
                      ∧ rate ≤ 22050 ∧ rate ≤ sampleRate original)).
Proof.
  destruct (applyNoiseReduction_returns (audio (contexts w)) blob) as [nr Hnr].
  destruct (compressAudio_returns (audio (S (contexts w))) nr (95 # 100))
    as [cmp Hcmp].
  set (w1 := {| storage := storage w; now := now w; requests := requests w;
                contexts := S (contexts w);
                trace := trace w ++ [EvNoiseReduction blob] |}).
  set (w2 := {| storage := storage w1; now := now w1; requests := requests w1;
                contexts := S (contexts w1);
                trace := trace w1 ++ [EvCompress nr (95 # 100)] |}).
  assert (Hnrrate : ∀ buf,
            noiseReductionCompletes (audio (contexts w)) blob buf →
            wavSampleRate nr = Some (sampleRate buf mod 2 ^ 32)).
  { intros buf Hbuf.
    destruct (noiseReductionBody_completes _ _ _ Hbuf)
      as (filtered & Hbody & Hrate & _).
    rewrite applyNoiseReduction_by_body, Hbody in Hnr. injection Hnr as <-.
    by rewrite wavSampleRate_audioBufferToBlob, Hrate. }
  assert (Hcmprate : ∀ buf,
            compressionCompletes (audio (S (contexts w))) nr buf →
            compressBody (audio (S (contexts w))) nr (95 # 100) = Return cmp
            ∧ wavSampleRate cmp
              = Some (Z.min (sampleRate buf) 22050 mod 2 ^ 32)).
  { intros buf Hbuf.
    destruct (compressBody_completes _ _ (95 # 100) _ Hbuf)
      as (compressed & Hbody & Hrate & _).
    rewrite compressAudio_by_body, Hbody in Hcmp. injection Hcmp as <-.
    split; [done|]. by rewrite wavSampleRate_audioBufferToBlob, Hrate. }
  exists nr, (if bool_decide (size blob > 200 * 1024) then cmp else nr),
    (if bool_decide (size blob > 200 * 1024) then w2 else w1).
  split; [done|]. split; [|split; [done|split; [|split]]].
  - unfold processAudio, bind. rewrite (applyNoiseReduction_run _ nr) by done.
    fold w1. case_bool_decide.
    + by rewrite (compressAudio_run _ cmp) by done.
    + reflexivity.
  - intros Hnone.
    destruct (applyNoiseReduction_falls_back _ _ Hnone) as [Hsame _].
    congruence.
  - intros Hsmall. rewrite bool_decide_eq_false_2 by lia.
    split; [done|]. split; [done|].
    unfold countEvents, w1. cbn [trace].
    rewrite List.filter_app, length_app. simpl. lia.
  - intros Hlarge. rewrite !bool_decide_eq_true_2 by lia.
    split; [unfold w2, w1; cbn [trace]; by rewrite <- app_assoc|].
    split; [done|]. split; [|split; [|split; [|split]]].
    + intros buf Hbuf. destruct (Hcmprate buf Hbuf) as [Hbody Hrate].
      split; [done|]. split; [done|].
      intros Hpos. exists (Z.min (sampleRate buf) 22050).
      rewrite Hrate, Z.mod_small by lia. split; [done|]. lia.
    + intros Hnone.
      destruct (compressAudio_falls_back _ _ (95 # 100) Hnone) as [Hsame He].
      split; [congruence | done].
    + intros cmp' Hbody. split.
      * rewrite compressAudio_by_body, Hbody in Hcmp. congruence.
      * by apply compressBody_returns with cmp' (95 # 100).
    + intros e Hbody. rewrite compressAudio_by_body, Hbody in Hcmp. congruence.
    + intros original buf Horiginal Hbuf Hheader Hrange.
      destruct (Hcmprate buf Hbuf) as [_ Hrate].
      rewrite (Hnrrate original Horiginal) in Hheader.
      rewrite Z.mod_small in Hheader by lia. injection Hheader as Hsame.
      exists (Z.min (sampleRate buf) 22050).
      rewrite Hrate, Z.mod_small by lia. split; [done|]. lia.
Qed.

End PipelineFacts.

(** C8 fails as stated: in a browser without Web Audio a 48 kHz recording
    of more than 200 KiB goes through the compression step and comes out
    unchanged, at 48000 Hz. *)
Lemma large_recording_keeps_its_rate :
  size Scenario.largeRecording > 200 * 1024
  ∧ ∃ out w',
      ApiClient.processAudio (fun _ => Scenario.noWebAudio)
        Scenario.largeRecording Scenario.freshWorld = (Return out, w')
      ∧ ApiClient.countEvents ApiClient.isCompress (ApiClient.trace w') = 1%nat
      ∧ AudioProcessor.wavSampleRate out = Some 48000
      ∧ ¬ (48000 ≤ 22050).
Proof.
  split; [by vm_compute|].
  exists Scenario.largeRecording,
    {| ApiClient.storage := ∅; ApiClient.now := 0; ApiClient.requests := 0;
       ApiClient.contexts := 2;
       ApiClient.trace :=
         [ApiClient.EvNoiseReduction Scenario.largeRecording;
          ApiClient.EvCompress Scenario.largeRecording (95 # 100)] |}.
  split; [|split; [reflexivity|split; [|lia]]].
  - unfold ApiClient.processAudio, ApiClient.bind.
    rewrite (applyNoiseReduction_run _ Scenario.largeRecording
               Scenario.largeRecording) by reflexivity.
    rewrite bool_decide_eq_true_2 by (by vm_compute).
    by rewrite (compressAudio_run _ Scenario.largeRecording
                  Scenario.largeRecording) by reflexivity.
  - unfold Scenario.largeRecording. by rewrite wavSampleRate_wavHeader.
Qed.

Lemma compression_only_above_threshold_witness :
  size Scenario.largeRecording > 200 * 1024
  ∧ ∃ nr out w',
      ApiClient.processAudio (fun _ => Scenario.decodesTo48k 4)
        Scenario.largeRecording Scenario.freshWorld = (Return out, w')
      ∧ ApiClient.trace w'
        = [ApiClient.EvNoiseReduction Scenario.largeRecording;
           ApiClient.EvCompress nr (95 # 100)]
      ∧ AudioProcessor.wavSampleRate nr = Some 48000
      ∧ AudioProcessor.wavSampleRate out = Some 22050.
Proof.
  split; [by vm_compute|].
  destruct (compression_only_above_threshold (fun _ => Scenario.decodesTo48k 4)
              Scenario.largeRecording Scenario.freshWorld)
    as (nr & out & w' & _ & Hrun & Hreduced & _ & _ & Hlarge).
  exists nr, out, w'. split; [exact Hrun|].
  destruct Hlarge as (Htrace & _ & Hcompletes & _); [by vm_compute|].
  split; [exact Htrace|]. split.
  - apply (Hreduced (AudioProcessor.mkAudioBuffer 48000 4 [repeat 0 4%nat])).
    repeat split; reflexivity.
  - apply (Hcompletes (AudioProcessor.mkAudioBuffer 48000 4 [repeat 0 4%nat])).
    repeat split; try reflexivity. discriminate.
Defined.

Section FallbackFacts.
Import AudioProcessor ApiClient.
Context {Sample : Type} `{FloatOps Sample}.
Variable audio : nat -> AudioContext Sample.

(** C9. When decoding the blob raises, noise reduction and compression
    each return the blob they were given, the same value; neither step
    ever throws, whatever the browser does; so the processing of
    [transcribeAudio] always yields a blob, and yields the original when
    decoding it raises in every audio context. *)
Theorem processing_falls_back_to_original (blob : Blob) (quality : Q) (w : World) :
  (∀ n e, decodeAudioData (audio n) (blobBytes blob) = Throw e →
     AudioProcessor.applyNoiseReduction (audio n) blob = Return blob
     ∧ AudioProcessor.compressAudio (audio n) blob quality = Return blob)
  ∧ (∀ n, (∃ out, AudioProcessor.applyNoiseReduction (audio n) blob = Return out)
          ∧ (∃ out, AudioProcessor.compressAudio (audio n) blob quality
                    = Return out))
  ∧ (∃ out w', processAudio audio blob w = (Return out, w'))
  ∧ ((∀ n, ∃ e, decodeAudioData (audio n) (blobBytes blob) = Throw e) →
     ∃ w', processAudio audio blob w = (Return blob, w')).
Proof.
  split; [|split; [|split]].
  - intros n e Hdec. split.
    + by apply applyNoiseReduction_decode_fails with e.
    + by apply compressAudio_decode_fails with e.
  - intros n. split.
    + apply applyNoiseReduction_returns.
    + apply compressAudio_returns.
  - destruct (processAudio_run audio blob w) as (out & evs & Hrun & _). eauto.
  - intros Hfail.
    destruct (Hfail (contexts w)) as [e1 He1].
    destruct (Hfail (S (contexts w))) as [e2 He2].
    unfold processAudio, bind.
    rewrite (applyNoiseReduction_run audio blob blob)
      by (by apply applyNoiseReduction_decode_fails with e1).
    case_bool_decide; [|unfold ret; eauto].
    rewrite (compressAudio_run audio blob blob)
      by (by apply compressAudio_decode_fails with e2).
    eauto.
Qed.

End FallbackFacts.

Lemma processing_falls_back_to_original_witness :
  ∃ w', ApiClient.processAudio (fun _ => Scenario.noWebAudio)
          (mkBlob [1; 2; 3] "audio/wav") Scenario.freshWorld
        = (Return (mkBlob [1; 2; 3] "audio/wav"), w').
Proof.
  destruct (processing_falls_back_to_original (fun _ => Scenario.noWebAudio)
              (mkBlob [1; 2; 3] "audio/wav") (95 # 100) Scenario.freshWorld)
    as (_ & _ & _ & Hfail).
  apply Hfail. intros n. eexists. reflexivity.
Defined.

(** ** The retry loop of the API client *)

Section RetryFacts.
Import ErrorHandler ApiClient.
Variable net : nat -> NetReply.
Variable abortMessage : string.

(** The cache writes of both methods only change the store. *)
Lemma cacheTranscription_CacheWrite (audioHash : string) :
  CacheWrite (cacheTranscription audioHash).
Proof. intros s w. eexists. reflexivity. Qed.

Lemma cacheChatResponse_CacheWrite (messageHash : string) :
  CacheWrite (cacheChatResponse messageHash).
Proof. intros s w. eexists. reflexivity. Qed.

(** One attempt, by the reply of the network. *)
Lemma attemptOnce_exchange url body field store (w : World) :
  attemptOnce net abortMessage url body field store w
  = match exchange abortMessage field (net (requests w)) with
    | Throw e => (Throw (ThrownRaw e), afterFetch net url body w)
    | Return text =>
        (store text ;;; ret text) (afterFetch net url body w)
    end.
Proof.
  unfold attemptOnce, bind, fetchWithTimeout, exchange.
  case_bool_decide; [done|].
  destruct (settled (net (requests w))) as [r|e]; [|done].
  cbn [andThen]. unfold liftRaw.
  destruct (handleResponse r) as [result|e]; [|done].
  cbn [andThen]. by destruct (field result).
Qed.

(** An iteration whose request fails and whose failure classifies to
    [appError]. *)
Lemma retryLoop_failed_attempt url body context field store
    (retryAttempts attempt : nat) (rest : list nat) (w : World) e appError :
  exchange abortMessage field (net (requests w)) = Throw e →
  handleApiError e context = Return appError →
  retryLoop net abortMessage url body context field store retryAttempts
    (attempt :: rest) w
  = if (attempt =? retryAttempts)%nat
       || negb (shouldRetry appError attempt retryAttempts)
    then (Throw (ThrownApp appError), afterFetch net url body w)
    else retryLoop net abortMessage url body context field store retryAttempts
           rest (afterSleep (getRetryDelay attempt) (afterFetch net url body w)).
Proof.
  intros He Ha. cbn [retryLoop]. unfold tryCatchM.
  rewrite attemptOnce_exchange, He. unfold bind, classify, liftRaw.
  rewrite Ha. by destruct (_ || _).
Qed.

(** A retry loop only appends requests of its own and sleeps to the log,
    and begins with a request when an attempt is left. *)
Lemma retryLoop_trace url body context field store (retryAttempts : nat)
    (attempts : list nat) (w : World) :
  CacheWrite store →
  ∃ evs,
    trace (retryLoop net abortMessage url body context field store
             retryAttempts attempts w).2 = (trace w ++ evs)%list
    ∧ LoopEvents url body evs
    ∧ (attempts ≠ [] → ∃ evs', evs = EvFetch url body :: evs').
Proof.
  intros Hstore. revert w.
  induction attempts as [|attempt rest IH]; intros w.
  - exists []. split; [|split; [constructor|done]].
    cbn [retryLoop]. unfold bind, liftRaw.
    destruct (handleApiError _ context); by rewrite app_nil_r.
  - cbn [retryLoop]. unfold tryCatchM. rewrite attemptOnce_exchange.
    assert (Hone : LoopEvents url body [EvFetch url body])
      by (constructor; [by left | constructor]).
    destruct (exchange abortMessage field (net (requests w))) as [text|e].
    + destruct (Hstore text (afterFetch net url body w)) as [st Hst].
      unfold bind. rewrite Hst. exists [EvFetch url body].
      split; [done|]. split; [done|]. eauto.
    + unfold bind, classify, liftRaw.
      destruct (handleApiError e context) as [appError|e'].
      * destruct (_ || _).
        -- exists [EvFetch url body]. split; [done|]. split; [done|]. eauto.
        -- unfold sleep.
           destruct (IH (afterSleep (getRetryDelay attempt)
                           (afterFetch net url body w)))
             as (evs & Htrace & Hevs & _).
           exists (EvFetch url body :: EvSleep (getRetryDelay attempt) :: evs).
           split; [|split; [|eauto]].
           ++ rewrite Htrace. cbn [afterSleep afterFetch trace].
              by rewrite <- !app_assoc.
           ++ constructor; [by left|]. constructor; [right; eauto|done].
      * exists [EvFetch url body]. split; [done|]. split; [done|]. eauto.
Qed.

(** The guard of the [catch] clause, for an attempt within the budget. *)
Lemma abort_condition (appError : AppError) (attempt retryAttempts : nat) :
  (attempt ≤ retryAttempts)%nat →
  (attempt =? retryAttempts)%nat
  || negb (shouldRetry appError attempt retryAttempts) = true
  ↔ attempt = retryAttempts ∨ retryable appError = false.
Proof.
  intros Hle. unfold shouldRetry.
  destruct (Nat.eqb_spec attempt retryAttempts) as [->|Hne]; simpl.
  - split; [by left|done].
  - assert ((attempt <? retryAttempts)%nat = true) as ->
      by (apply Nat.ltb_lt; lia).
    rewrite andb_true_r. destruct (retryable appError); simpl.
    + split; [done|]. intros [?|?]; done.
    + split; [by right|done].
Qed.

(** C1. In a retry loop (that of [transcribeAudio] or of
    [sendChatMessage]: [store] is the cache write of the method), take an
    attempt within the budget whose request fails with a value that
    classifies to [appError]. The loop stops there, throwing [appError]
    with nothing logged after the failed request, if and only if
    [attempt = retryAttempts] or [appError] is not retryable. Otherwise
    it sleeps [min(1000 * 2^attempt, 10000)] milliseconds and goes on
    with attempt [attempt + 1], whose first effect is the same request
    with the same body; all that the rest of the loop logs are such
    requests and sleeps, so no audio processing runs again. The outer
    [catch] of the method throws an [AppError] on as it is. The delays of
    attempts 0, 1, 2, 3 and 10 are 1000, 2000, 4000, 8000 and 10000. *)
Theorem retry_decision url body context field store
    (retryAttempts attempt : nat) (w : World) e appError :
  CacheWrite store →
  (attempt ≤ retryAttempts)%nat →
  exchange abortMessage field (net (requests w)) = Throw e →
  handleApiError e context = Return appError →
  let loop := fun (a : nat) =>
    retryLoop net abortMessage url body context field store retryAttempts
      (seq a (S retryAttempts - a)) in
  let delay := Z.min (1000 * 2 ^ Z.of_nat attempt) 10000 in
  (loop attempt w = (Throw (ThrownApp appError), afterFetch net url body w)
     ↔ attempt = retryAttempts ∨ retryable appError = false)
  ∧ (¬ (attempt = retryAttempts ∨ retryable appError = false) →
     loop attempt w
     = loop (S attempt) (afterSleep delay (afterFetch net url body w))
     ∧ ∃ evs,
         trace (loop attempt w).2
         = (trace w ++ [EvFetch url body; EvSleep delay; EvFetch url body]
            ++ evs)%list
         ∧ LoopEvents url body evs)
  ∧ (∀ context' w',
       rethrowAsAppError (A := string) context' (ThrownApp appError) w'
       = (Throw (ThrownApp appError), w'))
  ∧ map getRetryDelay [0; 1; 2; 3; 10]%nat
    = [1000; 2000; 4000; 8000; 10000].
Proof.
  intros Hstore Hle He Ha loop delay.
  assert (Hseq : seq attempt (S retryAttempts - attempt)
                 = attempt :: seq (S attempt) (S retryAttempts - S attempt)).
  { replace (S retryAttempts - attempt)%nat
      with (S (S retryAttempts - S attempt)) by lia. done. }
  assert (Hstep : loop attempt w
    = if (attempt =? retryAttempts)%nat
         || negb (shouldRetry appError attempt retryAttempts)
      then (Throw (ThrownApp appError), afterFetch net url body w)
      else loop (S attempt) (afterSleep delay (afterFetch net url body w))).
  { unfold loop. rewrite Hseq. by apply retryLoop_failed_attempt with e. }
  assert (Hgo : ¬ (attempt = retryAttempts ∨ retryable appError = false) →
     loop attempt w
     = loop (S attempt) (afterSleep delay (afterFetch net url body w))
     ∧ ∃ evs,
         trace (loop attempt w).2
         = (trace w ++ [EvFetch url body; EvSleep delay; EvFetch url body]
            ++ evs)%list
         ∧ LoopEvents url body evs).
  { intros Hno. rewrite <- abort_condition in Hno by done.
    apply not_true_is_false in Hno. rewrite Hno in Hstep.
    split; [done|]. rewrite Hstep. unfold loop.
    destruct (retryLoop_trace url body context field store retryAttempts
                (seq (S attempt) (S retryAttempts - S attempt))
                (afterSleep delay (afterFetch net url body w)) Hstore)
      as (evs & Htrace & Hevs & Hfirst).
    destruct Hfirst as [evs' ->].
    { assert (attempt ≠ retryAttempts).
      { intros ->. rewrite Nat.eqb_refl in Hno. done. }
      replace (S retryAttempts - S attempt)%nat
        with (S (retryAttempts - S attempt)) by lia. done. }
    exists evs'. split.
    - rewrite Htrace. cbn [afterSleep afterFetch trace].
      by rewrite <- !app_assoc.
    - by inversion Hevs. }
  split; [|split; [done|split; done]].
  split.
  - intros Hstop.
    destruct (decide (attempt = retryAttempts)) as [|Hne]; [by left|].
    destruct (retryable appError) eqn:Hretry; [|by right].
    exfalso. destruct Hgo as (_ & evs & Htrace & _).
    { intros [?|?]; done. }
    rewrite Hstop in Htrace. cbn [snd afterFetch trace] in Htrace.
    apply app_inv_head in Htrace. discriminate Htrace.
  - intros Hstop. rewrite <- abort_condition in Hstop by done.
    by rewrite Hstep, Hstop.
Qed.

End RetryFacts.

Lemma retry_decision_witness :
  let url := "http://localhost:8000/transcribe" in
  let body := ApiClient.FormData (mkBlob [1; 2; 3] "audio/wav") "recording.wav" in
  let loop := ApiClient.retryLoop (Scenario.refuses 503) "aborted" url body
                "transcription" ApiClient.readTranscript
                (ApiClient.cacheTranscription "h") 3 in
  loop (seq 0 4) Scenario.freshWorld
  = loop (seq 1 3)
      (ApiClient.afterSleep 1000
         (ApiClient.afterFetch (Scenario.refuses 503) url body
            Scenario.freshWorld)).
Proof.
  intros url body loop.
  pose (e := JsObject (mkErrorObject false "Error" "refused" (Some 503))).
  pose (appError := ErrorHandler.createError API_ERROR
                      "Server error (503). Please try again." e true).
  destruct (retry_decision (Scenario.refuses 503) "aborted" url body
              "transcription" ApiClient.readTranscript
              (ApiClient.cacheTranscription "h") 3 0 Scenario.freshWorld
              e appError) as (_ & Hgo & _).
  - apply cacheTranscription_CacheWrite.
  - lia.
  - reflexivity.
  - reflexivity.
  - apply Hgo. intros [Hstop|Hstop]; [lia | discriminate Hstop].
Defined.

(** ** Whole calls *)

Section CallFacts.
Import ErrorHandler ApiClient.
Context {Sample : Type} `{AudioProcessor.FloatOps Sample}.
Variable baseUrl : string.
Variable net : nat -> NetReply.
Variable audio : nat -> AudioProcessor.AudioContext Sample.
Variable blobText : list Z -> list Z.
Variable abortMessage : string.

Lemma countEvents_app (p : Event → bool) (evs1 evs2 : list Event) :
  countEvents p (evs1 ++ evs2) = (countEvents p evs1 + countEvents p evs2)%nat.
Proof. unfold countEvents. by rewrite List.filter_app, length_app. Qed.

Lemma countEvents_processing (evs : list Event) :
  Forall (fun ev => isFetch ev = false ∧ isSleep ev = false) evs →
  countEvents isFetch evs = 0%nat ∧ countEvents isSleep evs = 0%nat.
Proof.
  unfold countEvents. induction 1 as [|ev evs [Hf Hs] _ [IHf IHs]]; [done|].
  simpl. by rewrite Hf, Hs.
Qed.

Lemma withStorage_same (w : World) : withStorage (storage w) w = w.
Proof. by destruct w. Qed.

(** The outer [catch] never returns normally. *)
Lemma rethrowAsAppError_throws (context : string) (error : Thrown) (w : World) :
  ∃ t, rethrowAsAppError (A := string) context error w = (Throw t, w).
Proof.
  destruct error as [e|a]; simpl; [|by eexists].
  unfold bind, liftRaw. destruct (handleApiError e context); by eexists.
Qed.

(** A retry loop of [transcribeAudio] that returns has just written its
    result to the cache, with the transcription TTL. *)
Lemma retryLoop_success_stores url body context (audioHash : string)
    (retryAttempts : nat) (attempts : list nat) (w w' : World) (t : string) :
  retryLoop net abortMessage url body context readTranscript
    (cacheTranscription audioHash) retryAttempts attempts w = (Return t, w') →
  storage w' !! Cache.createKey "transcription" [audioHash]
  = Some {| Cache.data := t; Cache.timestamp := now w';
            Cache.expiresAt := now w' + ResponseCache.TRANSCRIPTION_TTL |}.
Proof.
  revert w. induction attempts as [|attempt rest IH]; intros w.
  - cbn [retryLoop]. unfold bind, liftRaw.
    by destruct (handleApiError _ context).
  - cbn [retryLoop]. unfold tryCatchM. rewrite attemptOnce_exchange.
    destruct (exchange abortMessage readTranscript (net (requests w)))
      as [text|e].
    + unfold bind, cacheTranscription, ret. intros [= <- <-].
      cbn [withStorage storage now].
      unfold ResponseCache.cacheTranscription. rewrite lookup_set_eq.
      rewrite bool_decide_eq_false_2; [done|].
      unfold ResponseCache.TRANSCRIPTION_TTL. lia.
    + unfold bind, classify, liftRaw.
      destruct (handleApiError e context) as [appError|e']; [|done].
      destruct (_ || _); [done|]. unfold sleep. apply IH.
Qed.

(** The cache lookup that opens [transcribeAudio]. *)
Lemma getCachedTranscription_run (audioHash : string) (w : World) :
  getCachedTranscription audioHash w
  = (Return (ResponseCache.getCachedTranscription audioHash (now w)
               (storage w)).1,
     withStorage (ResponseCache.getCachedTranscription audioHash (now w)
                    (storage w)).2 w).
Proof.
  unfold getCachedTranscription.
  by destruct (ResponseCache.getCachedTranscription _ _ _).
Qed.

Lemma getCachedChatResponse_run (messageHash : string) (w : World) :
  getCachedChatResponse messageHash w
  = (Return (ResponseCache.getCachedChatResponse messageHash (now w)
               (storage w)).1,
     withStorage (ResponseCache.getCachedChatResponse messageHash (now w)
                    (storage w)).2 w).
Proof.
  unfold getCachedChatResponse.
  by destruct (ResponseCache.getCachedChatResponse _ _ _).
Qed.

(** C5. A call to [transcribeAudio] or to [sendChatMessage] that finds no
    usable cache entry and whose first request fails with a value that
    classifies to a non-retryable [appError] throws that [appError]; it
    has issued exactly one request and has not slept. *)
Theorem non_retryable_failure_surfaces_at_once (retryAttempts : nat) (w : World)
    (e : RawError) (appError : AppError) :
  retryable appError = false →
  (∀ audioBlob : Blob,
     truthy (ResponseCache.getCachedTranscription
               (ResponseCache.createHash blobText (Binary audioBlob))
               (now w) (storage w)).1 = false →
     exchange abortMessage readTranscript (net (requests w)) = Throw e →
     handleApiError e "transcription" = Return appError →
     ∃ w' evs,
       transcribeAudio baseUrl net audio blobText abortMessage audioBlob
         retryAttempts w = (Throw (ThrownApp appError), w')
       ∧ requests w' = S (requests w)
       ∧ trace w' = (trace w ++ evs)%list
       ∧ countEvents isFetch evs = 1%nat
       ∧ countEvents isSleep evs = 0%nat)
  ∧ (∀ msg : string,
     truthy (ResponseCache.getCachedChatResponse
               (ResponseCache.createHash blobText (Text msg))
               (now w) (storage w)).1 = false →
     exchange abortMessage readResponse (net (requests w)) = Throw e →
     handleApiError e "chat" = Return appError →
     ∃ w' evs,
       sendChatMessage baseUrl net blobText abortMessage msg retryAttempts w
       = (Throw (ThrownApp appError), w')
       ∧ requests w' = S (requests w)
       ∧ trace w' = (trace w ++ evs)%list
       ∧ countEvents isFetch evs = 1%nat
       ∧ countEvents isSleep evs = 0%nat).
Proof.
  intros Hretry.
  assert (Hstop : ∀ n, (0 =? n)%nat || negb (shouldRetry appError 0 n) = true).
  { intros n. unfold shouldRetry. rewrite Hretry. apply orb_true_r. }
  split.
  - intros audioBlob Hmiss He Ha.
    unfold transcribeAudio, tryCatchM, bind.
    rewrite getCachedTranscription_run, Hmiss.
    destruct (processAudio_run audio audioBlob
                (withStorage (ResponseCache.getCachedTranscription
                   (ResponseCache.createHash blobText (Binary audioBlob))
                   (now w) (storage w)).2 w))
      as (out & evs & -> & Hevs).
    cbn [seq]. rewrite (retryLoop_failed_attempt _ _ _ _ _ _ _ _ _ _ _ e appError)
      by done.
    rewrite Hstop. cbn [rethrowAsAppError]. unfold throw.
    eexists _, (evs ++ [EvFetch _ _])%list.
    split; [reflexivity|]. split; [done|]. split.
    { cbn [afterFetch trace withStorage]. by rewrite <- app_assoc. }
    destruct (countEvents_processing evs Hevs) as [Hf Hs].
    by rewrite !countEvents_app, Hf, Hs.
  - intros msg Hmiss He Ha.
    unfold sendChatMessage, tryCatchM, bind.
    rewrite getCachedChatResponse_run, Hmiss.
    cbn [seq]. rewrite (retryLoop_failed_attempt _ _ _ _ _ _ _ _ _ _ _ e appError)
      by done.
    rewrite Hstop. cbn [rethrowAsAppError]. unfold throw.
    eexists _, [EvFetch _ _]. split; [reflexivity|]. done.
Qed.

(** A second [transcribeAudio] of the same bytes, while the entry written
    by the first is live, returns the cached transcript and leaves the
    state as it found it (no request, no processing), provided that the
    transcript is not the empty string. *)
Lemma transcribe_again_hits_cache (audioBlob audioBlob' : Blob)
    (retryAttempts retryAttempts' : nat) (w0 w1 w2 : World) (t : string) :
  truthy (ResponseCache.getCachedTranscription
            (ResponseCache.createHash blobText (Binary audioBlob))
            (now w0) (storage w0)).1 = false →
  transcribeAudio baseUrl net audio blobText abortMessage audioBlob
    retryAttempts w0 = (Return t, w1) →
  blobBytes audioBlob' = blobBytes audioBlob →
  storage w2 = storage w1 →
  now w2 ≤ now w1 + ResponseCache.TRANSCRIPTION_TTL →
  t ≠ "" →
  ResponseCache.createHash blobText (Binary audioBlob')
  = ResponseCache.createHash blobText (Binary audioBlob)
  ∧ transcribeAudio baseUrl net audio blobText abortMessage audioBlob'
      retryAttempts' w2 = (Return t, w2).
Proof.
  intros Hmiss Hfirst Hbytes Hstorage Hnow Ht.
  assert (Hhash : ResponseCache.createHash blobText (Binary audioBlob')
                  = ResponseCache.createHash blobText (Binary audioBlob))
    by (unfold ResponseCache.createHash; by rewrite Hbytes).
  split; [done|].
  assert (Hentry :
    storage w1 !! Cache.createKey "transcription"
                    [ResponseCache.createHash blobText (Binary audioBlob)]
    = Some {| Cache.data := t; Cache.timestamp := now w1;
              Cache.expiresAt := now w1 + ResponseCache.TRANSCRIPTION_TTL |}).
  { revert Hfirst. unfold transcribeAudio, tryCatchM, bind.
    rewrite getCachedTranscription_run, Hmiss.
    destruct (processAudio_run audio audioBlob
                (withStorage (ResponseCache.getCachedTranscription
                   (ResponseCache.createHash blobText (Binary audioBlob))
                   (now w0) (storage w0)).2 w0))
      as (out & evs & -> & _).
    destruct (retryLoop _ _ _ _ _ _ _ _ _ _) as [[t'|thrown] wl] eqn:Hloop.
    - intros [= <- <-]. by apply retryLoop_success_stores in Hloop.
    - destruct (rethrowAsAppError_throws "transcription" thrown wl) as [x ->].
      done. }
  unfold transcribeAudio, tryCatchM, bind.
  rewrite getCachedTranscription_run, Hhash.
  unfold ResponseCache.getCachedTranscription, Cache.get.
  rewrite Hstorage, Hentry. cbn [Cache.expiresAt Cache.data].
  rewrite bool_decide_eq_false_2 by lia. cbn [fst snd].
  rewrite <- Hstorage, withStorage_same. unfold truthy.
  rewrite bool_decide_eq_false_2 by done. done.
Qed.

(** C2, as the code has it. A request whose [fetch] has not settled within
    the timeout is aborted: [fetchWithTimeout] throws the [AbortError],
    [timeout] milliseconds after it started. The classifier does not take
    that value for a network failure; it classifies it by the context, as
    a retryable [TRANSCRIPTION_ERROR] in [transcribeAudio], a retryable
    [CHAT_ERROR] in [sendChatMessage] and a retryable [UNKNOWN_ERROR]
    elsewhere. *)
Theorem timeout_is_classified_by_context (url : string) (body : Payload)
    (w : World) (context : string) :
  timeout < latency (net (requests w)) →
  fetchWithTimeout net abortMessage url body w
  = (Throw (ThrownRaw (abortError abortMessage)), afterFetch net url body w)
  ∧ now (afterFetch net url body w) = now w + timeout
  ∧ ∃ a, handleApiError (abortError abortMessage) context = Return a
         ∧ retryable a = true
         ∧ type a ≠ NETWORK_ERROR
         ∧ type a = (if bool_decide (context = "transcription")
                     then TRANSCRIPTION_ERROR
                     else if bool_decide (context = "chat") then CHAT_ERROR
                     else UNKNOWN_ERROR).
Proof.
  intros Hlate. split; [|split].
  - unfold fetchWithTimeout. by rewrite bool_decide_eq_true_2.
  - cbn [afterFetch now]. unfold elapsed. by rewrite bool_decide_eq_true_2.
  - unfold handleApiError. simpl.
    repeat case_bool_decide; eexists; (split; [reflexivity|]); done.
Qed.

End CallFacts.

Lemma non_retryable_failure_surfaces_at_once_witness :
  ∃ w' evs,
    ApiClient.transcribeAudio "http://localhost:8000" (Scenario.refuses 401)
      (fun _ => Scenario.noWebAudio) Scenario.latin1 "aborted"
      (mkBlob [1; 2; 3] "audio/wav") 3 Scenario.freshWorld
    = (Throw (ApiClient.ThrownApp
                (ErrorHandler.createError API_ERROR
                   "Authentication failed. Please check your API key."
                   (JsObject (mkErrorObject false "Error" "refused" (Some 401)))
                   false)), w')
    ∧ ApiClient.requests w' = 1%nat
    ∧ ApiClient.trace w' = evs
    ∧ ApiClient.countEvents ApiClient.isFetch evs = 1%nat
    ∧ ApiClient.countEvents ApiClient.isSleep evs = 0%nat.
Proof.
  destruct (non_retryable_failure_surfaces_at_once "http://localhost:8000"
              (Scenario.refuses 401) (fun _ => Scenario.noWebAudio)
              Scenario.latin1 "aborted" 3 Scenario.freshWorld
              (JsObject (mkErrorObject false "Error" "refused" (Some 401)))
              (ErrorHandler.createError API_ERROR
                 "Authentication failed. Please check your API key."
                 (JsObject (mkErrorObject false "Error" "refused" (Some 401)))
                 false))
    as [Htranscribe _].
  - reflexivity.
  - destruct (Htranscribe (mkBlob [1; 2; 3] "audio/wav"))
      as (w' & evs & Hrun & Hreq & Htrace & Hfetch & Hsleep).
    + reflexivity.
    + reflexivity.
    + reflexivity.
    + exists w', evs. split; [exact Hrun|]. split; [exact Hreq|].
      split; [exact Htrace|]. split; [exact Hfetch | exact Hsleep].
Defined.

(** C2 fails as stated: the failure of a request that timed out is
    classified, in [transcribeAudio], as a [TRANSCRIPTION_ERROR]; no
    [NETWORK_ERROR] comes out of the classifier. *)
Lemma timeout_is_not_a_network_error :
  let url := "http://localhost:8000/transcribe" in
  let body := ApiClient.FormData (mkBlob [1; 2; 3] "audio/wav") "recording.wav" in
  let aborted := ApiClient.abortError "The user aborted a request." in
  ApiClient.timeout < ApiClient.latency (Scenario.stalls 0%nat)
  ∧ (ApiClient.fetchWithTimeout Scenario.stalls "The user aborted a request."
       url body Scenario.freshWorld).1
    = Throw (ApiClient.ThrownRaw aborted)
  ∧ (∃ a, ErrorHandler.handleApiError aborted "transcription" = Return a
          ∧ type a = TRANSCRIPTION_ERROR)
  ∧ ¬ (∃ a, ErrorHandler.handleApiError aborted "transcription" = Return a
            ∧ type a = NETWORK_ERROR ∧ retryable a = true).
Proof.
  intros url body aborted. split; [reflexivity|]. split; [reflexivity|].
  split.
  - eexists. split; reflexivity.
  - intros (a & Ha & Hty & _). injection Ha as <-. discriminate Hty.
Qed.

Lemma timeout_is_classified_by_context_witness :
  ∃ a, ErrorHandler.handleApiError (ApiClient.abortError "aborted") "chat"
       = Return a
       ∧ retryable a = true ∧ type a = CHAT_ERROR.
Proof.
  destruct (timeout_is_classified_by_context Scenario.stalls "aborted"
              "http://localhost:8000/chat" (ApiClient.JsonMessage "hello")
              Scenario.freshWorld "chat")
    as (_ & _ & a & Ha & Hretry & _ & Hty).
  - reflexivity.
  - exists a. split; [exact Ha|]. split; [exact Hretry | exact Hty].
Defined.

(** C7 at the failing input. The backend answers a recording with the
    empty transcript. The first [transcribeAudio] issues one request and
    caches the transcript ([has] finds the entry); the second call, with
    the same blob at the same instant, finds the entry but takes the
    empty string for a miss and issues a second request. *)
Theorem empty_transcript_is_fetched_again :
  let call :=
    ApiClient.transcribeAudio "http://localhost:8000" (Scenario.answers "")
      (fun _ => Scenario.noWebAudio) Scenario.latin1 "aborted"
      (mkBlob [1; 2; 3] "audio/wav") 3 in
  let w1 := (call Scenario.freshWorld).2 in
  let key :=
    Cache.createKey "transcription"
      [ResponseCache.createHash Scenario.latin1
         (Binary (mkBlob [1; 2; 3] "audio/wav"))] in
  (call Scenario.freshWorld).1 = Return ""
  ∧ ApiClient.requests w1 = 1%nat
  ∧ (Cache.has (ApiClient.now w1) key (ApiClient.storage w1)).1 = true
  ∧ (Cache.get (ApiClient.now w1) key (ApiClient.storage w1)).1 = Some ""
  ∧ (call w1).1 = Return ""
  ∧ ApiClient.requests (call w1).2 = 2%nat
  ∧ ApiClient.countEvents ApiClient.isFetch (ApiClient.trace (call w1).2)
    = 2%nat.
Proof. vm_compute. repeat split. Qed.

(* ===================================================================== *)
(** * Part III: further properties of the code                            *)
(* ===================================================================== *)

(** ** More on the cache *)

Section CacheMore.
Context {T : Type}.
Implicit Types (st : gmap string (Cache.CacheItem T)) (key k : string).

(** X1. Last write wins, entirely: with a clock that does not run
    backwards, writing a key twice leaves the same store as the second
    write alone; value and expiry of the first write are gone. *)
Theorem set_overwrites_earlier_set key (v1 v2 : T)
    (ttl1 ttl2 now1 now1' now2 now2' : Z) st :
  now1' ≤ now2' →
  Cache.set key v2 ttl2 now2 now2' (Cache.set key v1 ttl1 now1 now1' st)
  = Cache.set key v2 ttl2 now2 now2' st.
Proof.
  intros Hclock. apply map_eq. intros k. unfold Cache.set.
  rewrite !lookup_cleanup. destruct (decide (k = key)) as [->|Hne].
  - by rewrite !lookup_insert_eq.
  - rewrite !lookup_insert_ne by done. rewrite lookup_cleanup.
    rewrite lookup_insert_ne by done.
    destruct (st !! k) as [item|]; [|done].
    case_bool_decide as Hold; [|done].
    by rewrite bool_decide_eq_true_2 by lia.
Qed.

(** X2. A write purges: after [set], whose cleanup ran at [now'], no
    stored entry has expired at [now'], and under every other key the
    store holds exactly the entries it held that had not expired. *)
Theorem set_purges_expired key (v : T) (ttl now now' : Z) st k item :
  (Cache.set key v ttl now now' st !! k = Some item →
     now' ≤ Cache.expiresAt item)
  ∧ (k ≠ key →
     (Cache.set key v ttl now now' st !! k = Some item
      ↔ st !! k = Some item ∧ now' ≤ Cache.expiresAt item)).
Proof.
  unfold Cache.set. rewrite lookup_cleanup. split.
  - destruct (_ !! k) as [item'|]; [|done].
    case_bool_decide; [done|]. intros [= ->]. lia.
  - intros Hne. rewrite lookup_insert_ne by done.
    destruct (st !! k) as [item'|]; [|by split; [|intros [? _]]].
    case_bool_decide; split.
    + done.
    + intros [[= ->] ?]. lia.
    + intros [= ->]. split; [done|lia].
    + by intros [[= ->] _].
Qed.

Lemma get_after_other_set key key' (v : T) (ttl now now' t : Z) st :
  key ≠ key' →
  now' ≤ t →
  (Cache.get t key (Cache.set key' v ttl now now' st)).1
  = (Cache.get t key st).1.
Proof.
  intros Hne Hclock. rewrite !get_fst. unfold Cache.set.
  rewrite lookup_cleanup. rewrite lookup_insert_ne by done.
  destruct (st !! key) as [item|]; [|done].
  case_bool_decide; [|done]. by rewrite bool_decide_eq_true_2 by lia.
Qed.

(** X3. The purge of a write is invisible to readers: what a later
    [get] of another key returns is not changed by the write. *)
Theorem set_other_key_invisible key key' (v : T) (ttl now now' t : Z) st :
  key ≠ key' →
  now' ≤ t →
  (Cache.get t key (Cache.set key' v ttl now now' st)).1
  = (Cache.get t key st).1
  ∧ (Cache.has t key (Cache.set key' v ttl now now' st)).1
    = (Cache.has t key st).1.
Proof.
  intros Hne Hclock. split; [by apply get_after_other_set|].
  rewrite !has_get. simpl. by rewrite get_after_other_set.
Qed.

(** X4. [delete] removes the entry for good and touches nothing else; it
    reports [true] exactly when an entry was stored, also when that entry
    had expired and [has] would have answered [false]. *)
Theorem delete_removes key (t : Z) st :
  (Cache.delete_ key st).1 = bool_decide (is_Some (st !! key))
  ∧ Cache.get t key (Cache.delete_ key st).2
    = (None, (Cache.delete_ key st).2)
  ∧ (Cache.has t key (Cache.delete_ key st).2).1 = false
  ∧ (∀ k, k ≠ key → (Cache.delete_ key st).2 !! k = st !! k)
  ∧ (∀ item, st !! key = Some item → Cache.expiresAt item < t →
       (Cache.has t key st).1 = false ∧ (Cache.delete_ key st).1 = true).
Proof.
  unfold Cache.delete_. cbn [fst snd]. split; [done|].
  assert (Hget : Cache.get t key (delete key st) = (None, delete key st))
    by (unfold Cache.get; by rewrite lookup_delete_eq).
  split; [done|]. split; [by rewrite has_get, Hget|]. split.
  - intros k Hne. by apply lookup_delete_ne.
  - intros item Hlook Hexp. rewrite has_get, get_fst, Hlook. cbn [fst].
    rewrite bool_decide_eq_true_2 by lia. split; [done|].
    by rewrite bool_decide_eq_true_2.
Qed.

(** X5. [getStats] reports the stored keys, each once, and their number,
    whether expired or not: an entry stays in the statistics until a
    write or a read of its key purges it. After [clear] nothing is
    stored and nothing is found. *)
Theorem getStats_counts_stored st :
  (Cache.getStats st).1 = length (Cache.getStats st).2
  ∧ NoDup (Cache.getStats st).2
  ∧ (∀ k, k ∈ (Cache.getStats st).2 ↔ is_Some (st !! k))
  ∧ Cache.getStats (Cache.clear st) = (0%nat, [])
  ∧ (∀ t k, Cache.get t k (Cache.clear st) = (None, Cache.clear st)).
Proof.
  unfold Cache.getStats, Cache.clear. cbn [fst snd].
  split; [|split; [|split; [|split]]].
  - by rewrite length_fmap, length_map_to_list.
  - apply NoDup_fst_map_to_list.
  - intros k. rewrite list_elem_of_fmap. split.
    + intros [[k' item] [-> Hin]]. apply elem_of_map_to_list in Hin. eauto.
    + intros [item Hlook]. exists (k, item).
      split; [done|]. by apply elem_of_map_to_list.
  - by rewrite map_to_list_empty.
  - intros t k. unfold Cache.get. by rewrite lookup_empty.
Qed.

End CacheMore.

Lemma set_overwrites_earlier_set_witness :
  Cache.set "k" "new" 50 10 10 (Cache.set "k" "old" 1000 0 0 ∅)
  = Cache.set "k" "new" 50 10 10 ∅.
Proof. apply set_overwrites_earlier_set. lia. Defined.

Lemma set_purges_expired_witness :
  Cache.set "a" "v" 10 100 100 (<["b" := Cache.mkCacheItem "w" 0 200]> ∅) !! "b"
  = Some (Cache.mkCacheItem "w" 0 200).
Proof.
  apply (set_purges_expired "a" "v" 10 100 100
           (<["b" := Cache.mkCacheItem "w" 0 200]> ∅) "b"); [done|].
  split; [reflexivity | simpl; lia].
Defined.

Lemma set_other_key_invisible_witness :
  (Cache.get 7 "a" (Cache.set "b" "w" 10 5 5
                      (<["a" := Cache.mkCacheItem "v" 0 3]> ∅))).1
  = (Cache.get 7 "a" (<["a" := Cache.mkCacheItem "v" 0 3]> ∅)).1.
Proof. apply set_other_key_invisible; [done | lia]. Defined.

Lemma delete_removes_witness :
  (Cache.has 9 "a" (<["a" := Cache.mkCacheItem "v" 0 3]> ∅)).1 = false
  ∧ (Cache.delete_ "a" (<["a" := Cache.mkCacheItem "v" 0 3]> ∅)).1 = true.
Proof.
  apply (delete_removes "a" 9 (<["a" := Cache.mkCacheItem "v" 0 3]> ∅))
    with (item := Cache.mkCacheItem "v" 0 3).
  - reflexivity.
  - simpl. lia.
Defined.

(** ** Cache keys *)

Lemma append_inj_r (p a b : string) : p ++ a = p ++ b → a = b.
Proof. induction p as [|c p IH]; simpl; [done|]. intros [= Heq]. auto. Qed.

Lemma transcription_key_not_chat_key (hash1 hash2 : string) :
  Cache.createKey "transcription" [hash1] ≠ Cache.createKey "chat" [hash2].
Proof. unfold Cache.createKey. cbn [String.concat]. discriminate. Qed.

(** X6. The two sub-caches share one store without clashing: a
    transcription key is never a chat key, and under one prefix two
    hashes give the same key only when they are equal. *)
Theorem createKey_namespaces (prefix hash1 hash2 : string) :
  Cache.createKey "transcription" [hash1] ≠ Cache.createKey "chat" [hash2]
  ∧ (Cache.createKey prefix [hash1] = Cache.createKey prefix [hash2] →
     hash1 = hash2).
Proof.
  split; [apply transcription_key_not_chat_key|].
  unfold Cache.createKey. cbn [String.concat].
  intros Heq. apply append_inj_r in Heq. by apply append_inj_r in Heq.
Qed.

Lemma createKey_namespaces_witness : "u5q" = "u5q".
Proof.
  apply (createKey_namespaces "chat" "u5q" "u5q"). reflexivity.
Defined.

(** ** The response cache and its hash *)

Section ResponseCacheFacts.
Import ResponseCache.
Implicit Types (st : gmap string (Cache.CacheItem string)).

(** X7. The namespaces are independent: caching a chat response never
    changes what a later transcription lookup returns, and caching a
    transcript never changes what a later chat lookup returns, whatever
    the two hashes are. *)
Theorem namespaces_do_not_interfere (hash hash' text : string)
    (now now' t : Z) st :
  now' ≤ t →
  (getCachedTranscription hash t (cacheChatResponse hash' text now now' st)).1
  = (getCachedTranscription hash t st).1
  ∧ (getCachedChatResponse hash t (cacheTranscription hash' text now now' st)).1
    = (getCachedChatResponse hash t st).1.
Proof.
  intros Hclock.
  unfold getCachedTranscription, getCachedChatResponse, cacheChatResponse,
    cacheTranscription.
  split; apply get_after_other_set.
  - apply transcription_key_not_chat_key.
  - done.
  - intros Heq. symmetry in Heq.
    by apply transcription_key_not_chat_key in Heq.
  - done.
Qed.

(** X8. A cached transcript is served for ten minutes, a cached chat
    response for five, the last millisecond included; one millisecond
    later the lookup finds nothing. *)
Theorem response_cache_lifetimes (hash text : string) (now now' t : Z) st :
  now' ≤ t →
  ((getCachedTranscription hash t (cacheTranscription hash text now now' st)).1
   = if bool_decide (t ≤ now + 600000) then Some text else None)
  ∧ ((getCachedChatResponse hash t (cacheChatResponse hash text now now' st)).1
     = if bool_decide (t ≤ now + 300000) then Some text else None).
Proof.
  intros Hclock.
  unfold getCachedTranscription, getCachedChatResponse, cacheChatResponse,
    cacheTranscription, TRANSCRIPTION_TTL, CHAT_TTL.
  rewrite !get_fst, !lookup_set_eq.
  split; repeat case_bool_decide; simpl; try done;
    repeat case_bool_decide; try done; lia.
Qed.

End ResponseCacheFacts.

Lemma namespaces_do_not_interfere_witness :
  (ResponseCache.getCachedTranscription "h" 5
     (ResponseCache.cacheChatResponse "h" "reply" 0 0 ∅)).1
  = (ResponseCache.getCachedTranscription "h" 5 ∅).1.
Proof. apply namespaces_do_not_interfere. lia. Defined.

Lemma response_cache_lifetimes_witness :
  (ResponseCache.getCachedTranscription "h" 600000
     (ResponseCache.cacheTranscription "h" "hello" 0 0 ∅)).1
  = if bool_decide (600000 ≤ 0 + 600000) then Some "hello" else None.
Proof. apply response_cache_lifetimes. lia. Defined.

Section HashFacts.
Import ResponseCache.

Lemma toInt32_range (x : Z) : - 2 ^ 31 ≤ toInt32 x < 2 ^ 31.
Proof.
  unfold toInt32. pose proof (Z.mod_pos_bound x (2 ^ 32)).
  destruct (Z.ltb_spec (x mod 2 ^ 32) (2 ^ 31)); lia.
Qed.

Lemma toInt32_wraps (x : Z) : ∃ k, toInt32 x = x + 2 ^ 32 * k.
Proof.
  unfold toInt32. pose proof (Z.div_mod x (2 ^ 32)).
  destruct (Z.ltb_spec (x mod 2 ^ 32) (2 ^ 31)).
  - exists (- (x / 2 ^ 32)). lia.
  - exists (- (x / 2 ^ 32) - 1). lia.
Qed.

Lemma toInt32_mod (x : Z) : toInt32 x mod 2 ^ 32 = x mod 2 ^ 32.
Proof.
  destruct (toInt32_wraps x) as [k ->].
  rewrite (Z.mul_comm (2 ^ 32) k). by rewrite Z_mod_plus_full.
Qed.

Lemma toInt32_congr (x y : Z) :
  x mod 2 ^ 32 = y mod 2 ^ 32 → toInt32 x = toInt32 y.
Proof. unfold toInt32. by intros ->. Qed.

Lemma toInt32_small (x : Z) : - 2 ^ 31 ≤ x < 2 ^ 31 → toInt32 x = x.
Proof.
  intros Hx. unfold toInt32.
  destruct (Z.ltb_spec (x mod 2 ^ 32) (2 ^ 31)) as [Hlt|Hge].
  - destruct (Z.le_gt_cases 0 x); [by rewrite Z.mod_small by lia|].
    exfalso. replace x with (x + 2 ^ 32 + -1 * 2 ^ 32) in Hlt by lia.
    rewrite Z_mod_plus_full, Z.mod_small in Hlt by lia. lia.
  - destruct (Z.le_gt_cases 0 x).
    + rewrite Z.mod_small in Hge by lia. lia.
    + replace x with (x + 2 ^ 32 + -1 * 2 ^ 32) at 1 by lia.
      rewrite Z_mod_plus_full, Z.mod_small by lia. lia.
Qed.

Lemma hashStep_poly (hash char : Z) :
  hashStep hash char = toInt32 (31 * hash + char).
Proof.
  unfold hashStep. apply toInt32_congr.
  destruct (toInt32_wraps (hash * 32)) as [k ->].
  replace (hash * 32 + 2 ^ 32 * k - hash + char)
    with (31 * hash + char + k * 2 ^ 32) by lia.
  apply Z_mod_plus_full.
Qed.

Lemma fold_hashStep_range (data : list Z) (h : Z) :
  - 2 ^ 31 ≤ h < 2 ^ 31 →
  - 2 ^ 31 ≤ fold_left hashStep data h < 2 ^ 31.
Proof.
  revert h. induction data as [|c data IH]; intros h Hh; [done|].
  cbn [fold_left]. apply IH. unfold hashStep. apply toInt32_range.
Qed.

Lemma fold_hashStep_poly (data : list Z) (a b : Z) :
  a mod 2 ^ 32 = b mod 2 ^ 32 →
  fold_left hashStep data a mod 2 ^ 32
  = fold_left (fun h c => 31 * h + c) data b mod 2 ^ 32.
Proof.
  revert a b. induction data as [|c data IH]; intros a b Hab; [done|].
  cbn [fold_left]. apply IH. rewrite hashStep_poly, toInt32_mod.
  rewrite (Z.add_mod (31 * a)), (Z.mul_mod 31 a), Hab by lia.
  by rewrite <- Z.mul_mod, <- Z.add_mod by lia.
Qed.

Lemma hashCodeUnits_range (data : list Z) :
  - 2 ^ 31 ≤ hashCodeUnits data < 2 ^ 31.
Proof. apply fold_hashStep_range. lia. Qed.

(** X9. The shift-and-subtract loop of [createHash] is the polynomial
    hash with multiplier 31, wrapped to a signed 32-bit integer: each
    round computes [31 * hash + char], and the whole loop the wrapped
    value of [c0 * 31^(n-1) + ... + c(n-1)]; the result always fits 32
    bits. *)
Theorem hash_is_polynomial_31 (data : list Z) (hash char : Z) :
  hashStep hash char = toInt32 (31 * hash + char)
  ∧ hashCodeUnits data = toInt32 (fold_left (fun h c => 31 * h + c) data 0)
  ∧ - 2 ^ 31 ≤ hashCodeUnits data < 2 ^ 31.
Proof.
  split; [apply hashStep_poly|]. split; [|apply hashCodeUnits_range].
  rewrite <- (toInt32_small (hashCodeUnits data))
    by apply hashCodeUnits_range.
  apply toInt32_congr. by apply fold_hashStep_poly.
Qed.

Lemma digit36_cases (d : Z) :
  0 ≤ d < 36 → isBase36Digit (digit36 d) = true ∧ digitValue (digit36 d) = d.
Proof.
  intros Hd.
  assert (Hall : ∀ n : nat, (n < 36)%nat →
            isBase36Digit (digit36 (Z.of_nat n)) = true
            ∧ digitValue (digit36 (Z.of_nat n)) = Z.of_nat n).
  { intros n Hlt. do 36 (destruct n as [|n]; [by vm_compute|]). lia. }
  replace d with (Z.of_nat (Z.to_nat d)) by lia. apply Hall. lia.
Qed.

Lemma append_cons (c : ascii) (s1 s2 : string) :
  String c s1 ++ s2 = String c (s1 ++ s2).
Proof. reflexivity. Qed.

Lemma append_nil_r (s : string) : s ++ "" = s.
Proof.
  induction s as [|c s IH]; [done|]. by rewrite append_cons, IH.
Qed.

Lemma parse36_from_app (s1 s2 : string) (acc : Z) :
  parse36_from acc (s1 ++ s2) = parse36_from (parse36_from acc s1) s2.
Proof.
  revert acc. induction s1 as [|c s1 IH]; intros acc; [done|].
  rewrite append_cons. cbn [parse36_from]. apply IH.
Qed.

Lemma string_app_assoc (s1 s2 s3 : string) : (s1 ++ s2) ++ s3 = s1 ++ s2 ++ s3.
Proof.
  induction s1 as [|c s1 IH]; [done|]. by rewrite !append_cons, IH.
Qed.

Lemma string_length_app (s1 s2 : string) :
  String.length (s1 ++ s2) = (String.length s1 + String.length s2)%nat.
Proof.
  induction s1 as [|c s1 IH]; [done|].
  rewrite append_cons. cbn [String.length]. by rewrite IH.
Qed.

Lemma base36_digits_app (s1 s2 : string) :
  Forall (fun c => isBase36Digit c = true) (list_ascii_of_string s1) →
  Forall (fun c => isBase36Digit c = true) (list_ascii_of_string s2) →
  Forall (fun c => isBase36Digit c = true) (list_ascii_of_string (s1 ++ s2)).
Proof.
  intros H1 H2. induction s1 as [|c s1 IH]; [done|].
  rewrite append_cons. cbn [list_ascii_of_string] in *.
  inversion H1; subst. constructor; auto.
Qed.

(** The digits that [toString36_digits] puts in front of [acc]. *)
Lemma toString36_digits_spec (fuel : nat) (n : Z) (acc : string) :
  ∃ ds, toString36_digits fuel n acc = ds ++ acc
        ∧ (String.length ds ≤ fuel)%nat
        ∧ (fuel ≠ 0%nat → String.length ds ≠ 0%nat)
        ∧ Forall (fun c => isBase36Digit c = true) (list_ascii_of_string ds)
        ∧ (0 ≤ n < 36 ^ Z.of_nat fuel → parse36_from 0 ds = n).
Proof.
  revert n acc. induction fuel as [|fuel IH]; intros n acc.
  - exists "". cbn [toString36_digits String.length list_ascii_of_string
                    parse36_from].
    split; [done|]. split; [done|]. split; [done|]. split; [constructor|].
    cbn. lia.
  - cbn [toString36_digits].
    pose proof (Z.mod_pos_bound n 36 ltac:(lia)) as Hd.
    destruct (digit36_cases (n mod 36) Hd) as [Hdigit Hvalue].
    assert (Hone : Forall (fun c => isBase36Digit c = true)
                     (list_ascii_of_string (String (digit36 (n mod 36)) "")))
      by (by repeat constructor).
    destruct (Z.eqb_spec (n / 36) 0) as [Hzero|Hmore].
    + exists (String (digit36 (n mod 36)) "").
      split; [done|]. cbn [String.length parse36_from].
      split; [lia|]. split; [done|]. split; [done|].
      intros Hn. rewrite Hvalue. pose proof (Z.div_mod n 36). lia.
    + destruct (IH (n / 36) (String (digit36 (n mod 36)) acc))
        as (ds & -> & Hlen & _ & Hall & Hparse).
      exists (ds ++ String (digit36 (n mod 36)) "").
      split; [by rewrite string_app_assoc|].
      rewrite string_length_app. cbn [String.length].
      split; [lia|]. split; [lia|]. split; [by apply base36_digits_app|].
      intros Hn. rewrite parse36_from_app, Hparse.
      * cbn [parse36_from]. rewrite Hvalue. pose proof (Z.div_mod n 36). lia.
      * rewrite Nat2Z.inj_succ, Z.pow_succ_r in Hn by lia.
        split; [apply Z.div_pos; lia|].
        apply Z.div_lt_upper_bound; lia.
Qed.

(** X10. A content hash is a short plain token: between one and seven
    characters, each a digit or a lower-case letter, whatever the
    content. *)
Theorem createHash_shape (blobText : list Z → list Z) (content : Content) :
  (1 ≤ String.length (createHash blobText content) ≤ 7)%nat
  ∧ Forall (fun c => isBase36Digit c = true)
      (list_ascii_of_string (createHash blobText content)).
Proof.
  unfold createHash, toString36.
  destruct (toString36_digits_spec 7 (Z.abs (hashCodeUnits
              match content with
              | Text s => charCodes s
              | Binary b => blobText (blobBytes b)
              end)) "") as (ds & -> & Hlen & Hpos & Hall & _).
  rewrite append_nil_r. split; [|done]. split; [|done].
  specialize (Hpos ltac:(done)). lia.
Qed.

Lemma parse36_toString36 (n : Z) :
  0 ≤ n < 36 ^ 7 → parse36 (toString36 n) = n.
Proof.
  intros Hn. unfold parse36, toString36.
  destruct (toString36_digits_spec 7 n "") as (ds & -> & _ & _ & _ & Hparse).
  rewrite parse36_from_app. cbn [parse36_from]. by apply Hparse.
Qed.

(** X11. [toString(36)] loses nothing: [parseInt(n.toString(36), 36)]
    is [n] for every [n] below [36^7], so two numbers in that range with
    the same text are equal; hence two contents get the same hash string
    exactly when their 32-bit hash values agree up to sign. *)
Theorem createHash_equal_iff (blobText : list Z → list Z) (c1 c2 : Content) :
  let codes := fun c : Content =>
    match c with
    | Text s => charCodes s
    | Binary b => blobText (blobBytes b)
    end in
  (∀ n, 0 ≤ n < 36 ^ 7 → parse36 (toString36 n) = n)
  ∧ (∀ n m, 0 ≤ n < 36 ^ 7 → 0 ≤ m < 36 ^ 7 →
       toString36 n = toString36 m → n = m)
  ∧ (createHash blobText c1 = createHash blobText c2
     ↔ Z.abs (hashCodeUnits (codes c1)) = Z.abs (hashCodeUnits (codes c2))).
Proof.
  intros codes.
  assert (Hinj : ∀ n m, 0 ≤ n < 36 ^ 7 → 0 ≤ m < 36 ^ 7 →
                 toString36 n = toString36 m → n = m).
  { intros n m Hn Hm Heq.
    rewrite <- (parse36_toString36 n), <- (parse36_toString36 m) by done.
    by rewrite Heq. }
  split; [apply parse36_toString36|]. split; [done|].
  unfold createHash. fold (codes c1). fold (codes c2). split.
  - apply Hinj.
    + pose proof (hashCodeUnits_range (codes c1)). lia.
    + pose proof (hashCodeUnits_range (codes c2)). lia.
  - by intros ->.
Qed.

End HashFacts.

Lemma createHash_equal_iff_witness :
  ResponseCache.parse36 (ResponseCache.toString36 96354) = 96354.
Proof.
  destruct (createHash_equal_iff (fun bytes => bytes) (Text "abc") (Text "abc"))
    as (Hround & _ & _).
  apply Hround. split; [lia | reflexivity].
Defined.

(** ** More on the classifier and the retry policy *)

Section ClassifierMore.
Import ErrorHandler.

(** X13. Every capture failure that is an object classifies as a
    [MICROPHONE_ERROR] that keeps the failure as [originalError]; it is
    not retryable exactly for the names [NotAllowedError],
    [NotFoundError] and [NotSupportedError]; [null] and [undefined] make
    the handler throw. *)
Theorem handleMicrophoneError_table (o : ErrorObject) :
  (∃ a, handleMicrophoneError (JsObject o) = Return a
        ∧ type a = MICROPHONE_ERROR
        ∧ originalError a = JsObject o
        ∧ (retryable a = false
           ↔ errName o = "NotAllowedError" ∨ errName o = "NotFoundError"
             ∨ errName o = "NotSupportedError"))
  ∧ handleMicrophoneError JsNull
    = Throw (JsObject (nullishPropertyError "null" "name"))
  ∧ handleMicrophoneError JsUndefined
    = Throw (JsObject (nullishPropertyError "undefined" "name")).
Proof.
  split; [|done]. unfold handleMicrophoneError. simpl.
  repeat case_bool_decide; eexists; (split; [reflexivity|]);
    simpl; (split; [done|]); (split; [done|]); naive_solver.
Qed.

(** X14. The classification of an object is decided as follows, in every
    context: it is a [NETWORK_ERROR] exactly when the object is a
    [TypeError] whose message contains "fetch"; otherwise an [API_ERROR]
    exactly when it carries a non-zero status; it is not retryable
    exactly when it is such an [API_ERROR] with status 400 or 401; the
    context matters only for the rest, which is a [TRANSCRIPTION_ERROR]
    or a [CHAT_ERROR] only in the context of that name; the result is
    never a [MICROPHONE_ERROR] and keeps the object as [originalError]. *)
Theorem handleApiError_classification (o : ErrorObject) (context : string) :
  ∃ a, handleApiError (JsObject o) context = Return a
    ∧ originalError a = JsObject o
    ∧ (type a = NETWORK_ERROR ↔ isFetchTypeError (JsObject o) = true)
    ∧ (type a = API_ERROR
       ↔ isFetchTypeError (JsObject o) = false
         ∧ ∃ s, errStatus o = Some s ∧ s ≠ 0)
    ∧ (retryable a = false
       ↔ isFetchTypeError (JsObject o) = false
         ∧ (errStatus o = Some 400 ∨ errStatus o = Some 401))
    ∧ (type a = TRANSCRIPTION_ERROR → context = "transcription")
    ∧ (type a = CHAT_ERROR → context = "chat")
    ∧ type a ≠ MICROPHONE_ERROR.
Proof.
  unfold handleApiError. destruct (isFetchTypeError (JsObject o)).
  { eexists. split; [reflexivity|]. simpl. naive_solver. }
  simpl. destruct (errStatus o) as [s|].
  - destruct (decide (s = 0)) as [->|Hs].
    + simpl. repeat case_bool_decide; eexists; (split; [reflexivity|]);
        simpl; naive_solver.
    + assert (truthyStatus (Some s) = Some s) as -> by (by destruct s).
      repeat case_bool_decide; eexists; (split; [reflexivity|]);
        simpl; repeat split; try done; try naive_solver;
        intros; try (eexists; split; [reflexivity|]; done);
        try (exfalso; naive_solver).
  - simpl. repeat case_bool_decide; eexists; (split; [reflexivity|]);
      simpl; naive_solver.
Qed.

(** X15. The backoff delay starts at one second, never decreases with
    the attempt number, doubles up to the fourth attempt and stays at ten
    seconds from the fifth on. *)
Theorem getRetryDelay_bounds (attempt attempt' : nat) :
  1000 ≤ getRetryDelay attempt ≤ 10000
  ∧ ((attempt ≤ attempt')%nat → getRetryDelay attempt ≤ getRetryDelay attempt')
  ∧ ((attempt ≤ 3)%nat → getRetryDelay attempt = 1000 * 2 ^ Z.of_nat attempt)
  ∧ ((4 ≤ attempt)%nat → getRetryDelay attempt = 10000).
Proof.
  unfold getRetryDelay.
  assert (Hpow : ∀ a b : nat, (a ≤ b)%nat → 2 ^ Z.of_nat a ≤ 2 ^ Z.of_nat b)
    by (intros a b Hab; apply Z.pow_le_mono_r; lia).
  pose proof (Hpow 0%nat attempt ltac:(lia)) as H0.
  change (2 ^ Z.of_nat 0) with 1 in H0.
  split; [lia|]. split; [|split].
  - intros Hle. pose proof (Hpow _ _ Hle). lia.
  - intros Hle. pose proof (Hpow attempt 3%nat Hle) as H3.
    change (2 ^ Z.of_nat 3) with 8 in H3. lia.
  - intros Hge. pose proof (Hpow 4%nat attempt Hge) as H4.
    change (2 ^ Z.of_nat 4) with 16 in H4. lia.
Qed.

(** X16. [shouldRetry] alone decides the retry: it is true only for a
    retryable error at an attempt below the budget, so the test
    [attempt === retryAttempts] in front of it in the [catch] clause of
    the loops never changes the outcome. *)
Theorem shouldRetry_decides (error : AppError) (attempt maxAttempts : nat) :
  (shouldRetry error attempt maxAttempts = true
   ↔ retryable error = true ∧ (attempt < maxAttempts)%nat)
  ∧ (attempt =? maxAttempts)%nat
    || negb (shouldRetry error attempt maxAttempts)
    = negb (shouldRetry error attempt maxAttempts).
Proof.
  unfold shouldRetry. split.
  - rewrite andb_true_iff, Nat.ltb_lt. done.
  - destruct (Nat.eqb_spec attempt maxAttempts) as [->|Hne]; [|done].
    by rewrite Nat.ltb_irrefl, andb_false_r.
Qed.

End ClassifierMore.

Lemma getRetryDelay_bounds_witness :
  ErrorHandler.getRetryDelay 2 ≤ ErrorHandler.getRetryDelay 7
  ∧ ErrorHandler.getRetryDelay 2 = 1000 * 2 ^ Z.of_nat 2
  ∧ ErrorHandler.getRetryDelay 7 = 10000.
Proof.
  destruct (getRetryDelay_bounds 2 7) as (_ & Hmono & Hlow & _).
  destruct (getRetryDelay_bounds 7 7) as (_ & _ & _ & Hhigh).
  split; [apply Hmono; lia|]. split; [apply Hlow; lia | apply Hhigh; lia].
Defined.

(** ** Responses *)

Section ResponseFacts.
Import ErrorHandler ApiClient.

(** X17. [handleResponse] hands the parsed body of an OK response on and
    never returns for any other response. When the body of such a
    response parses to [null], reading [errorData.detail] throws a
    [TypeError] that carries no status: it classifies by the context and
    is retryable, whatever the status of the response, 400 and 401
    included. Otherwise [handleResponse] throws an [Error] that carries
    the status, with the [detail] of the body as its message, or
    "HTTP <status>: <statusText>" when the body is not JSON; whatever the
    message says, that value classifies as an [API_ERROR] (for a non-zero
    status), not retryable exactly for the statuses 400 and 401. *)
Theorem handleResponse_outcomes (r : Response) (context : string) :
  (ok r = true → handleResponse r = json r)
  ∧ (ok r = false →
     (∃ e, handleResponse r = Throw e)
     ∧ (json r = Return JsonNull →
        handleResponse r
        = Throw (JsObject (nullishPropertyError "null" "detail"))
        ∧ ∃ a, handleApiError (JsObject (nullishPropertyError "null" "detail"))
                 context
               = Return a
               ∧ retryable a = true
               ∧ type a = (if bool_decide (context = "transcription")
                           then TRANSCRIPTION_ERROR
                           else if bool_decide (context = "chat") then CHAT_ERROR
                           else UNKNOWN_ERROR))
     ∧ (json r ≠ Return JsonNull →
        ∃ msg,
          handleResponse r
          = Throw (JsObject {| instanceofTypeError := false; errName := "Error";
                               errMessage := msg;
                               errStatus := Some (status r) |})
          ∧ (∀ body, json r = Return (JsonObject body) → msg = detail body)
          ∧ (∀ e, json r = Throw e →
               msg = "HTTP " ++ pretty (status r) ++ ": " ++ statusText r)
          ∧ (status r ≠ 0 →
             ∃ a, handleApiError
                    (JsObject {| instanceofTypeError := false; errName := "Error";
                                 errMessage := msg;
                                 errStatus := Some (status r) |}) context
                  = Return a
                  ∧ type a = API_ERROR
                  ∧ (retryable a = false ↔ status r = 400 ∨ status r = 401)))).
Proof.
  unfold handleResponse. split.
  - by intros ->.
  - intros ->. cbn [negb]. split; [|split].
    + destruct (json r) as [[|body]|e]; simpl; eauto.
    + intros ->. split; [done|].
      unfold handleApiError. simpl.
      repeat case_bool_decide; eexists; (split; [reflexivity|]); done.
    + intros Hbody.
      assert (Hclass : ∀ msg, status r ≠ 0 →
                ∃ a, handleApiError
                       (JsObject {| instanceofTypeError := false;
                                    errName := "Error"; errMessage := msg;
                                    errStatus := Some (status r) |}) context
                     = Return a
                     ∧ type a = API_ERROR
                     ∧ (retryable a = false ↔ status r = 400 ∨ status r = 401)).
      { intros msg Hs. unfold handleApiError. simpl.
        destruct (status r) as [|p|p]; [done| |]; simpl;
          repeat case_bool_decide; eexists; (split; [reflexivity|]);
          simpl; (split; [done|]); naive_solver. }
      destruct (json r) as [[|body]|e]; [done| |].
      * exists (detail body). split; [done|].
        split; [by intros ? [= <-]|]. split; [done | apply Hclass].
      * eexists. split; [reflexivity|].
        split; [done|]. split; [done | apply Hclass].
Qed.

End ResponseFacts.

Lemma handleResponse_outcomes_witness :
  ApiClient.handleResponse
    (ApiClient.mkResponse false 401 "Unauthorized" (Return ApiClient.JsonNull))
  = Throw (JsObject (ErrorHandler.nullishPropertyError "null" "detail"))
  ∧ (∃ a, ErrorHandler.handleApiError
            (JsObject (ErrorHandler.nullishPropertyError "null" "detail")) "chat"
          = Return a
          ∧ retryable a = true ∧ type a = CHAT_ERROR)
  ∧ ∃ msg,
      ApiClient.handleResponse
        (ApiClient.mkResponse false 502 "Bad Gateway"
           (Throw (JsObject (mkErrorObject false "SyntaxError"
                               "Unexpected token < in JSON" None))))
      = Throw (JsObject (mkErrorObject false "Error" msg (Some 502)))
      ∧ msg = "HTTP 502: Bad Gateway".
Proof.
  destruct (handleResponse_outcomes
              (ApiClient.mkResponse false 401 "Unauthorized"
                 (Return ApiClient.JsonNull)) "chat") as [_ Hnull].
  destruct Hnull as (_ & Hnull & _); [reflexivity|].
  destruct Hnull as (Hthrow & a & Ha & Hretry & Hty); [reflexivity|].
  split; [exact Hthrow|]. split.
  { exists a. split; [exact Ha|]. split; [exact Hretry | exact Hty]. }
  destruct (handleResponse_outcomes
              (ApiClient.mkResponse false 502 "Bad Gateway"
                 (Throw (JsObject (mkErrorObject false "SyntaxError"
                                     "Unexpected token < in JSON" None))))
              "chat") as [_ Hbad].
  destruct Hbad as (_ & _ & Hbad); [reflexivity|].
  destruct Hbad as (msg & Hthrow' & _ & Hsynth & _); [discriminate|].
  exists msg. split; [exact Hthrow'|].
  rewrite (Hsynth _ eq_refl). reflexivity.
Defined.

(** ** More on the API client *)

Section ClientMore.
Import ErrorHandler ApiClient.
Context {Sample : Type} `{AudioProcessor.FloatOps Sample}.
Variable baseUrl : string.
Variable net : nat -> NetReply.
Variable audio : nat -> AudioProcessor.AudioContext Sample.
Variable blobText : list Z -> list Z.
Variable abortMessage : string.

Lemma handleApiError_object_returns (o : ErrorObject) (context : string) :
  ∃ a, handleApiError (JsObject o) context = Return a.
Proof.
  unfold handleApiError. destruct (isFetchTypeError (JsObject o)); [eauto|].
  simpl. destruct (truthyStatus (errStatus o)); repeat case_bool_decide; eauto.
Qed.

Lemma handleApiError_throws_object (e e' : RawError) (context : string) :
  handleApiError e context = Throw e' → ∃ o, e' = JsObject o.
Proof.
  destruct e as [| |o].
  - intros [= <-]. eauto.
  - intros [= <-]. eauto.
  - destruct (handleApiError_object_returns o context) as [a ->]. done.
Qed.

(** What a retry loop throws is an [AppError], or the [TypeError] that
    the classifier itself raised. *)
Lemma retryLoop_throws url body context field store (retryAttempts : nat)
    (attempts : list nat) (w w' : World) (t : Thrown) :
  CacheWrite store →
  retryLoop net abortMessage url body context field store retryAttempts
    attempts w = (Throw t, w') →
  (∃ a, t = ThrownApp a) ∨ (∃ o, t = ThrownRaw (JsObject o)).
Proof.
  intros Hstore. revert w. induction attempts as [|attempt rest IH]; intros w.
  - cbn [retryLoop]. unfold bind, liftRaw.
    destruct (handleApiError_object_returns
                (newError "Max retries exceeded") context) as [a ->].
    intros [= <- <-]. eauto.
  - cbn [retryLoop]. unfold tryCatchM. rewrite attemptOnce_exchange.
    destruct (exchange abortMessage field (net (requests w))) as [text|e].
    + destruct (Hstore text (afterFetch net url body w)) as [st Hst].
      unfold bind. by rewrite Hst.
    + unfold bind, classify, liftRaw.
      destruct (handleApiError e context) as [appError|e'] eqn:Hclass.
      * destruct (_ || _); [intros [= <- <-]; eauto|]. unfold sleep. apply IH.
      * intros [= <- <-]. right.
        apply handleApiError_throws_object in Hclass as [o ->]. eauto.
Qed.

(** The outer [catch] turns both into an [AppError]. *)
Lemma rethrowAsAppError_wraps (context : string) (t : Thrown) (w : World) :
  (∃ a, t = ThrownApp a) ∨ (∃ o, t = ThrownRaw (JsObject o)) →
  ∃ a, rethrowAsAppError (A := string) context t w = (Throw (ThrownApp a), w).
Proof.
  intros [[a ->]|[o ->]]; cbn [rethrowAsAppError]; [by eexists|].
  unfold bind, liftRaw.
  destruct (handleApiError_object_returns o context) as [a ->]. by eexists.
Qed.

(** A call that finds no usable cache entry is its retry loop, run after
    the lookup (and, for a transcription, after the processing, which
    logs neither a request nor a sleep). *)
Lemma sendChatMessage_miss (msg : string) (retryAttempts : nat) (w : World) :
  truthy (ResponseCache.getCachedChatResponse
            (ResponseCache.createHash blobText (Text msg))
            (now w) (storage w)).1 = false →
  sendChatMessage baseUrl net blobText abortMessage msg retryAttempts w
  = tryCatchM
      (retryLoop net abortMessage (baseUrl ++ "/chat") (JsonMessage msg) "chat"
         readResponse
         (cacheChatResponse (ResponseCache.createHash blobText (Text msg)))
         retryAttempts (seq 0 (S retryAttempts)))
      (rethrowAsAppError "chat")
      (withStorage (ResponseCache.getCachedChatResponse
                      (ResponseCache.createHash blobText (Text msg))
                      (now w) (storage w)).2 w).
Proof.
  intros Hmiss. unfold sendChatMessage, tryCatchM, bind.
  by rewrite getCachedChatResponse_run, Hmiss.
Qed.

Lemma transcribeAudio_miss (audioBlob : Blob) (retryAttempts : nat) (w : World) :
  truthy (ResponseCache.getCachedTranscription
            (ResponseCache.createHash blobText (Binary audioBlob))
            (now w) (storage w)).1 = false →
  ∃ processed evs,
    Forall (fun ev => isFetch ev = false ∧ isSleep ev = false) evs
    ∧ transcribeAudio baseUrl net audio blobText abortMessage audioBlob
        retryAttempts w
      = tryCatchM
          (retryLoop net abortMessage (baseUrl ++ "/transcribe")
             (FormData processed "recording.wav") "transcription" readTranscript
             (cacheTranscription
                (ResponseCache.createHash blobText (Binary audioBlob)))
             retryAttempts (seq 0 (S retryAttempts)))
          (rethrowAsAppError "transcription")
          {| storage := (ResponseCache.getCachedTranscription
                           (ResponseCache.createHash blobText (Binary audioBlob))
                           (now w) (storage w)).2;
             now := now w; requests := requests w;
             contexts := contexts w + length evs;
             trace := trace w ++ evs |}.
Proof.
  intros Hmiss. unfold transcribeAudio, tryCatchM, bind.
  rewrite getCachedTranscription_run, Hmiss.
  destruct (processAudio_run audio audioBlob
              (withStorage (ResponseCache.getCachedTranscription
                 (ResponseCache.createHash blobText (Binary audioBlob))
                 (now w) (storage w)).2 w))
    as (out & evs & -> & Hevs).
  by exists out, evs.
Qed.

Lemma caught_loop_outcome url body context field store
    (retryAttempts : nat) (attempts : list nat) (w0 : World) :
  CacheWrite store →
  (∃ text w', tryCatchM
     (retryLoop net abortMessage url body context field store
        retryAttempts attempts) (rethrowAsAppError context) w0
     = (Return text, w'))
  ∨ (∃ a w', tryCatchM
     (retryLoop net abortMessage url body context field store
        retryAttempts attempts) (rethrowAsAppError context) w0
     = (Throw (ThrownApp a), w')).
Proof.
  intros Hstore. unfold tryCatchM.
  destruct (retryLoop _ _ _ _ _ _ _ _ _ _) as [[text|t] w'] eqn:Hrun;
    [left; eauto|].
  right. apply retryLoop_throws in Hrun; [|done].
  destruct (rethrowAsAppError_wraps context t w' Hrun) as [a ->]. eauto.
Qed.

Lemma transcribeAudio_outcome (audioBlob : Blob) (retryAttempts : nat)
    (w : World) :
  (∃ text w', transcribeAudio baseUrl net audio blobText abortMessage
                audioBlob retryAttempts w = (Return text, w'))
  ∨ (∃ a w', transcribeAudio baseUrl net audio blobText abortMessage
               audioBlob retryAttempts w = (Throw (ThrownApp a), w')).
Proof.
  destruct (truthy (ResponseCache.getCachedTranscription
              (ResponseCache.createHash blobText (Binary audioBlob))
              (now w) (storage w)).1) eqn:Hhit.
  - left. unfold transcribeAudio, tryCatchM, bind.
    rewrite getCachedTranscription_run, Hhit. unfold ret. eauto.
  - destruct (transcribeAudio_miss audioBlob retryAttempts w Hhit)
      as (processed & evs & _ & ->).
    apply caught_loop_outcome, cacheTranscription_CacheWrite.
Qed.

Lemma sendChatMessage_outcome (msg : string) (retryAttempts : nat) (w : World) :
  (∃ text w', sendChatMessage baseUrl net blobText abortMessage msg
                retryAttempts w = (Return text, w'))
  ∨ (∃ a w', sendChatMessage baseUrl net blobText abortMessage msg
               retryAttempts w = (Throw (ThrownApp a), w')).
Proof.
  destruct (truthy (ResponseCache.getCachedChatResponse
              (ResponseCache.createHash blobText (Text msg))
              (now w) (storage w)).1) eqn:Hhit.
  - left. unfold sendChatMessage, tryCatchM, bind.
    rewrite getCachedChatResponse_run, Hhit. unfold ret. eauto.
  - rewrite sendChatMessage_miss by done.
    apply caught_loop_outcome, cacheChatResponse_CacheWrite.
Qed.

(** X18. The client never lets a raw failure out: whatever the network,
    the browser and the cache do (also when [fetch] rejects with [null]),
    [transcribeAudio] and [sendChatMessage] either return a result or
    throw an [AppError]. *)
Theorem client_throws_only_AppErrors (audioBlob : Blob) (msg : string)
    (retryAttempts : nat) (w : World) :
  ((∃ text w', transcribeAudio baseUrl net audio blobText abortMessage
                 audioBlob retryAttempts w = (Return text, w'))
   ∨ (∃ a w', transcribeAudio baseUrl net audio blobText abortMessage
                audioBlob retryAttempts w = (Throw (ThrownApp a), w')))
  ∧ ((∃ text w', sendChatMessage baseUrl net blobText abortMessage msg
                   retryAttempts w = (Return text, w'))
     ∨ (∃ a w', sendChatMessage baseUrl net blobText abortMessage msg
                  retryAttempts w = (Throw (ThrownApp a), w'))).
Proof.
  split; [apply transcribeAudio_outcome | apply sendChatMessage_outcome].
Qed.

Lemma seq_budget (attempt retryAttempts : nat) :
  (attempt ≤ retryAttempts)%nat →
  seq attempt (S retryAttempts - attempt)
  = attempt :: seq (S attempt) (S retryAttempts - S attempt).
Proof.
  intros Hle. replace (S retryAttempts - attempt)%nat
    with (S (S retryAttempts - S attempt)) by lia. done.
Qed.

(** In a retry loop over the attempts left in the budget every sleep is
    followed by a request and the loop ends after a request. *)
Lemma retryLoop_counts url body context field store
    (retryAttempts : nat) (d attempt : nat) (w : World) :
  CacheWrite store →
  (attempt + d = retryAttempts)%nat →
  ∃ evs,
    trace (retryLoop net abortMessage url body context field store
             retryAttempts (seq attempt (S retryAttempts - attempt)) w).2
    = (trace w ++ evs)%list
    ∧ requests (retryLoop net abortMessage url body context field store
                  retryAttempts (seq attempt (S retryAttempts - attempt)) w).2
      = (requests w + countEvents isFetch evs)%nat
    ∧ (countEvents isSleep evs + 1 = countEvents isFetch evs)%nat
    ∧ (countEvents isFetch evs ≤ S d)%nat.
Proof.
  intros Hstore. revert attempt w.
  induction d as [|d IH]; intros attempt w Hbudget;
    rewrite seq_budget by lia; cbn [retryLoop]; unfold tryCatchM;
    rewrite attemptOnce_exchange;
    (destruct (exchange abortMessage field (net (requests w))) as [text|e];
     [destruct (Hstore text (afterFetch net url body w)) as [st Hst];
      unfold bind; rewrite Hst; exists [EvFetch url body];
      cbn; repeat split; lia|]);
    unfold bind, classify, liftRaw;
    (destruct (handleApiError e context) as [appError|e'];
     [|exists [EvFetch url body]; cbn; repeat split; lia]).
  - replace attempt with retryAttempts by lia. rewrite Nat.eqb_refl.
    cbn [orb]. exists [EvFetch url body]. cbn. repeat split; lia.
  - destruct (_ || _); [exists [EvFetch url body]; cbn; repeat split; lia|].
    unfold sleep.
    destruct (IH (S attempt)
                (afterSleep (getRetryDelay attempt) (afterFetch net url body w))
                ltac:(lia)) as (evs & Htrace & Hreq & Hsleep & Hfetch).
    exists (EvFetch url body :: EvSleep (getRetryDelay attempt) :: evs).
    rewrite Htrace, Hreq. cbn [afterSleep afterFetch trace requests].
    unfold countEvents in *. cbn [List.filter isFetch isSleep length].
    split; [by rewrite <- !app_assoc|]. repeat split; lia.
Qed.

(** X19. A call issues at most [retryAttempts + 1] requests and sleeps
    exactly once between two consecutive requests: the number of sleeps
    is the number of requests minus one (none for a call served from the
    cache), and each request is one more entry in the request count. *)
Theorem call_effects_are_bounded (audioBlob : Blob) (msg : string)
    (retryAttempts : nat) (w : World) :
  (∃ evs,
     trace (transcribeAudio baseUrl net audio blobText abortMessage audioBlob
              retryAttempts w).2 = (trace w ++ evs)%list
     ∧ requests (transcribeAudio baseUrl net audio blobText abortMessage
                   audioBlob retryAttempts w).2
       = (requests w + countEvents isFetch evs)%nat
     ∧ (countEvents isFetch evs ≤ S retryAttempts)%nat
     ∧ countEvents isSleep evs = (countEvents isFetch evs - 1)%nat)
  ∧ (∃ evs,
     trace (sendChatMessage baseUrl net blobText abortMessage msg
              retryAttempts w).2 = (trace w ++ evs)%list
     ∧ requests (sendChatMessage baseUrl net blobText abortMessage msg
                   retryAttempts w).2
       = (requests w + countEvents isFetch evs)%nat
     ∧ (countEvents isFetch evs ≤ S retryAttempts)%nat
     ∧ countEvents isSleep evs = (countEvents isFetch evs - 1)%nat).
Proof.
  assert (Hcatch : ∀ url body context field store (w0 : World),
    CacheWrite store →
    ∃ evs,
      trace (tryCatchM
               (retryLoop net abortMessage url body context field store
                  retryAttempts (seq 0 (S retryAttempts)))
               (rethrowAsAppError context) w0).2 = (trace w0 ++ evs)%list
      ∧ requests (tryCatchM
               (retryLoop net abortMessage url body context field store
                  retryAttempts (seq 0 (S retryAttempts)))
               (rethrowAsAppError context) w0).2
        = (requests w0 + countEvents isFetch evs)%nat
      ∧ (countEvents isSleep evs + 1 = countEvents isFetch evs)%nat
      ∧ (countEvents isFetch evs ≤ S retryAttempts)%nat).
  { intros url body context field store w0 Hstore.
    destruct (retryLoop_counts url body context field store retryAttempts
                retryAttempts 0 w0 Hstore eq_refl)
      as (evs & Htrace & Hreq & Hsleep & Hfetch).
    rewrite Nat.sub_0_r in Htrace, Hreq.
    exists evs. unfold tryCatchM.
    destruct (retryLoop _ _ _ _ _ _ _ _ _ _) as [[text|t] w'] eqn:Hrun;
      [done|].
    apply retryLoop_throws in Hrun; [|done].
    destruct (rethrowAsAppError_wraps context t w' Hrun) as [a ->]. done. }
  split.
  - destruct (truthy (ResponseCache.getCachedTranscription
                (ResponseCache.createHash blobText (Binary audioBlob))
                (now w) (storage w)).1) eqn:Hhit.
    + exists []. unfold transcribeAudio, tryCatchM, bind.
      rewrite getCachedTranscription_run, Hhit. cbn.
      rewrite app_nil_r. repeat split; lia.
    + destruct (transcribeAudio_miss audioBlob retryAttempts w Hhit)
        as (processed & evs0 & Hevs0 & ->).
      destruct (Hcatch (baseUrl ++ "/transcribe")
                  (FormData processed "recording.wav") "transcription"
                  readTranscript
                  (cacheTranscription
                     (ResponseCache.createHash blobText (Binary audioBlob)))
                  {|
                    storage := (ResponseCache.getCachedTranscription
                      (ResponseCache.createHash blobText (Binary audioBlob))
                      (now w) (storage w)).2;
                    now := now w; requests := requests w;
                    contexts := contexts w + length evs0;
                    trace := trace w ++ evs0 |}
                  (cacheTranscription_CacheWrite _))
        as (evs & -> & -> & Hsleep & Hfetch).
      destruct (countEvents_processing evs0 Hevs0) as [Hf0 Hs0].
      exists (evs0 ++ evs)%list. cbn [trace requests].
      rewrite !countEvents_app, Hf0, Hs0.
      split; [by rewrite <- app_assoc|]. repeat split; lia.
  - destruct (truthy (ResponseCache.getCachedChatResponse
                (ResponseCache.createHash blobText (Text msg))
                (now w) (storage w)).1) eqn:Hhit.
    + exists []. unfold sendChatMessage, tryCatchM, bind.
      rewrite getCachedChatResponse_run, Hhit. cbn.
      rewrite app_nil_r. repeat split; lia.
    + rewrite sendChatMessage_miss by done.
      destruct (Hcatch (baseUrl ++ "/chat") (JsonMessage msg) "chat" readResponse
                  (cacheChatResponse
                     (ResponseCache.createHash blobText (Text msg)))
                  (withStorage (ResponseCache.getCachedChatResponse
                       (ResponseCache.createHash blobText (Text msg))
                       (now w) (storage w)).2 w)
                  (cacheChatResponse_CacheWrite _))
        as (evs & -> & -> & Hsleep & Hfetch).
      exists evs. cbn [trace requests withStorage]. repeat split; lia.
Qed.

(** The state after [k] failed attempts and their sleeps. *)
Lemma afterRetries_facts url body (k attempt : nat) (w : World) :
  requests (afterRetries net url body k attempt w) = (requests w + k)%nat
  ∧ storage (afterRetries net url body k attempt w) = storage w
  ∧ contexts (afterRetries net url body k attempt w) = contexts w
  ∧ trace (afterRetries net url body k attempt w)
    = (trace w
       ++ flat_map (fun i => [EvFetch url body; EvSleep (getRetryDelay i)])
            (seq attempt k))%list.
Proof.
  revert attempt w. induction k as [|k IH]; intros attempt w.
  - cbn. rewrite app_nil_r. repeat split; lia.
  - cbn [afterRetries seq flat_map].
    destruct (IH (S attempt)
                (afterSleep (getRetryDelay attempt) (afterFetch net url body w)))
      as (-> & -> & -> & ->).
    cbn [afterSleep afterFetch requests storage contexts trace].
    split; [lia|]. split; [done|]. split; [done|].
    by rewrite <- !app_assoc.
Qed.

(** [k] retryable failures in a row, within the budget, take the loop
    [k] attempts further. *)
Lemma retryLoop_after_failures url body context field store
    (retryAttempts k attempt : nat) (w : World) :
  (attempt + k ≤ retryAttempts)%nat →
  (∀ i, (i < k)%nat →
     ∃ e appError,
       exchange abortMessage field (net (requests w + i)) = Throw e
       ∧ handleApiError e context = Return appError
       ∧ retryable appError = true) →
  retryLoop net abortMessage url body context field store retryAttempts
    (seq attempt (S retryAttempts - attempt)) w
  = retryLoop net abortMessage url body context field store retryAttempts
      (seq (attempt + k) (S retryAttempts - (attempt + k)))
      (afterRetries net url body k attempt w).
Proof.
  revert attempt w. induction k as [|k IH]; intros attempt w Hbudget Hfail.
  - by rewrite Nat.add_0_r.
  - destruct (Hfail 0%nat ltac:(lia)) as (e & appError & He & Ha & Hretry).
    rewrite Nat.add_0_r in He.
    rewrite seq_budget by lia.
    rewrite (retryLoop_failed_attempt _ _ _ _ _ _ _ _ _ _ _ e appError)
      by done.
    unfold shouldRetry. rewrite Hretry.
    destruct (Nat.eqb_spec attempt retryAttempts) as [?|_]; [lia|].
    destruct (Nat.ltb_spec attempt retryAttempts) as [_|?]; [|lia].
    cbn [andb negb orb afterRetries].
    rewrite IH.
    + by replace (S attempt + k)%nat with (attempt + S k)%nat by lia.
    + lia.
    + intros i Hi. destruct (Hfail (S i) ltac:(lia)) as (e' & a' & He' & Ha').
      exists e', a'. split; [|done]. cbn [afterSleep afterFetch requests].
      by replace (S (requests w) + i)%nat with (requests w + S i)%nat by lia.
Qed.

Lemma retryLoop_succeeds_after url body context field store
    (retryAttempts k : nat) (w : World) (text : string) :
  CacheWrite store →
  (k ≤ retryAttempts)%nat →
  (∀ i, (i < k)%nat →
     ∃ e appError,
       exchange abortMessage field (net (requests w + i)) = Throw e
       ∧ handleApiError e context = Return appError
       ∧ retryable appError = true) →
  exchange abortMessage field (net (requests w + k)) = Return text →
  retryLoop net abortMessage url body context field store retryAttempts
    (seq 0 (S retryAttempts)) w
  = (store text ;;; ret text)
      (afterFetch net url body (afterRetries net url body k 0 w)).
Proof.
  intros Hstore Hk Hfail Hok.
  pose proof (retryLoop_after_failures url body context field store
                retryAttempts k 0 w ltac:(lia) Hfail) as Hrun.
  rewrite Nat.sub_0_r in Hrun. rewrite Hrun. cbn [Nat.add].
  rewrite seq_budget by done. cbn [retryLoop]. unfold tryCatchM.
  rewrite attemptOnce_exchange.
  destruct (afterRetries_facts url body k 0 w) as (-> & _).
  rewrite Hok. unfold bind.
  destruct (Hstore text
              (afterFetch net url body (afterRetries net url body k 0 w)))
    as [st ->]. done.
Qed.

Lemma retryLoop_exhausted url body context field store
    (retryAttempts : nat) (w : World) :
  (∀ i, (i ≤ retryAttempts)%nat →
     ∃ e appError,
       exchange abortMessage field (net (requests w + i)) = Throw e
       ∧ handleApiError e context = Return appError
       ∧ retryable appError = true) →
  ∃ e appError,
    exchange abortMessage field (net (requests w + retryAttempts)) = Throw e
    ∧ handleApiError e context = Return appError
    ∧ retryLoop net abortMessage url body context field store retryAttempts
        (seq 0 (S retryAttempts)) w
      = (Throw (ThrownApp appError),
         afterFetch net url body
           (afterRetries net url body retryAttempts 0 w)).
Proof.
  intros Hfail.
  destruct (Hfail retryAttempts ltac:(lia)) as (e & appError & He & Ha & _).
  exists e, appError. split; [done|]. split; [done|].
  pose proof (retryLoop_after_failures url body context field store
                retryAttempts retryAttempts 0 w ltac:(lia)
                ltac:(intros i Hi; apply Hfail; lia)) as Hrun.
  rewrite Nat.sub_0_r in Hrun. rewrite Hrun. cbn [Nat.add].
  rewrite seq_budget by done.
  rewrite (retryLoop_failed_attempt _ _ _ _ _ _ _ _ _ _ _ e appError).
  - by rewrite Nat.eqb_refl.
  - by destruct (afterRetries_facts url body retryAttempts 0 w) as (-> & _).
  - done.
Qed.

(** X20. Retries are transparent: when the first [k] requests of a call
    (with [k] within the budget) fail with retryable errors and the next
    one succeeds, the call returns the result of that request; it has
    issued exactly [k + 1] requests, all with the same body, has slept
    [getRetryDelay 0], ..., [getRetryDelay (k - 1)] between them, and has
    cached the result, which a lookup at once finds. *)
Theorem retried_call_succeeds (k retryAttempts : nat) (w : World)
    (text : string) :
  (k ≤ retryAttempts)%nat →
  (∀ audioBlob : Blob,
     let hash := ResponseCache.createHash blobText (Binary audioBlob) in
     truthy (ResponseCache.getCachedTranscription hash (now w) (storage w)).1
     = false →
     (∀ i, (i < k)%nat →
        ∃ e appError,
          exchange abortMessage readTranscript (net (requests w + i)) = Throw e
          ∧ handleApiError e "transcription" = Return appError
          ∧ retryable appError = true) →
     exchange abortMessage readTranscript (net (requests w + k)) = Return text →
     ∃ processed evs w',
       Forall (fun ev => isFetch ev = false ∧ isSleep ev = false) evs
       ∧ transcribeAudio baseUrl net audio blobText abortMessage audioBlob
           retryAttempts w = (Return text, w')
       ∧ requests w' = (requests w + k + 1)%nat
       ∧ trace w'
         = (trace w ++ evs
            ++ flat_map (fun i =>
                 [EvFetch (baseUrl ++ "/transcribe")
                    (FormData processed "recording.wav");
                  EvSleep (getRetryDelay i)]) (seq 0 k)
            ++ [EvFetch (baseUrl ++ "/transcribe")
                  (FormData processed "recording.wav")])%list
       ∧ (ResponseCache.getCachedTranscription hash (now w') (storage w')).1
         = Some text)
  ∧ (∀ msg : string,
     let hash := ResponseCache.createHash blobText (Text msg) in
     truthy (ResponseCache.getCachedChatResponse hash (now w) (storage w)).1
     = false →
     (∀ i, (i < k)%nat →
        ∃ e appError,
          exchange abortMessage readResponse (net (requests w + i)) = Throw e
          ∧ handleApiError e "chat" = Return appError
          ∧ retryable appError = true) →
     exchange abortMessage readResponse (net (requests w + k)) = Return text →
     ∃ w',
       sendChatMessage baseUrl net blobText abortMessage msg retryAttempts w
       = (Return text, w')
       ∧ requests w' = (requests w + k + 1)%nat
       ∧ trace w'
         = (trace w
            ++ flat_map (fun i =>
                 [EvFetch (baseUrl ++ "/chat") (JsonMessage msg);
                  EvSleep (getRetryDelay i)]) (seq 0 k)
            ++ [EvFetch (baseUrl ++ "/chat") (JsonMessage msg)])%list
       ∧ (ResponseCache.getCachedChatResponse hash (now w') (storage w')).1
         = Some text).
Proof.
  intros Hk. split.
  - intros audioBlob hash Hmiss Hfail Hok.
    destruct (transcribeAudio_miss audioBlob retryAttempts w Hmiss)
      as (processed & evs & Hevs & ->).
    exists processed, evs. eexists. split; [done|].
    unfold tryCatchM. fold hash.
    rewrite (retryLoop_succeeds_after (baseUrl ++ "/transcribe")
               (FormData processed "recording.wav") "transcription" readTranscript
               (cacheTranscription hash) retryAttempts k
               {| storage := (ResponseCache.getCachedTranscription hash
                                (now w) (storage w)).2;
                  now := now w; requests := requests w;
                  contexts := contexts w + length evs;
                  trace := trace w ++ evs |} text
               (cacheTranscription_CacheWrite _) Hk Hfail Hok).
    unfold bind, cacheTranscription, ret. split; [reflexivity|].
    cbn [withStorage afterFetch requests trace storage now].
    destruct (afterRetries_facts (baseUrl ++ "/transcribe")
                (FormData processed "recording.wav") k 0
                {| storage := (ResponseCache.getCachedTranscription hash
                                 (now w) (storage w)).2;
                   now := now w; requests := requests w;
                   contexts := contexts w + length evs;
                   trace := trace w ++ evs |})
      as (-> & _ & _ & ->).
    cbn [requests trace]. split; [lia|]. split; [by rewrite <- !app_assoc|].
    unfold ResponseCache.getCachedTranscription,
      ResponseCache.cacheTranscription.
    rewrite get_fst, lookup_set_eq.
    unfold ResponseCache.TRANSCRIPTION_TTL.
    rewrite bool_decide_eq_false_2 by lia. cbn [Cache.expiresAt Cache.data].
    by rewrite bool_decide_eq_false_2 by lia.
  - intros msg hash Hmiss Hfail Hok.
    rewrite sendChatMessage_miss by done. eexists. unfold tryCatchM.
    fold hash.
    rewrite (retryLoop_succeeds_after (baseUrl ++ "/chat") (JsonMessage msg)
               "chat" readResponse (cacheChatResponse hash) retryAttempts k
               (withStorage (ResponseCache.getCachedChatResponse hash
                               (now w) (storage w)).2 w) text
               (cacheChatResponse_CacheWrite _) Hk Hfail Hok).
    unfold bind, cacheChatResponse, ret. split; [reflexivity|].
    cbn [withStorage afterFetch requests trace storage now].
    destruct (afterRetries_facts (baseUrl ++ "/chat") (JsonMessage msg) k 0
                (withStorage (ResponseCache.getCachedChatResponse hash
                                (now w) (storage w)).2 w))
      as (-> & _ & _ & ->).
    cbn [requests trace withStorage]. split; [lia|].
    split; [by rewrite <- !app_assoc|].
    unfold ResponseCache.getCachedChatResponse,
      ResponseCache.cacheChatResponse.
    rewrite get_fst, lookup_set_eq. unfold ResponseCache.CHAT_TTL.
    rewrite bool_decide_eq_false_2 by lia. cbn [Cache.expiresAt Cache.data].
    by rewrite bool_decide_eq_false_2 by lia.
Qed.

(** X21. When every request of a call fails with a retryable error, the
    call gives up after [retryAttempts + 1] requests and [retryAttempts]
    sleeps and throws the classification of the last failure (the
    "Max retries exceeded" error after the loop is never the one thrown);
    nothing has been written to the cache. *)
Theorem exhausted_call_throws_last_failure (retryAttempts : nat) (w : World) :
  (∀ audioBlob : Blob,
     let hash := ResponseCache.createHash blobText (Binary audioBlob) in
     truthy (ResponseCache.getCachedTranscription hash (now w) (storage w)).1
     = false →
     (∀ i, (i ≤ retryAttempts)%nat →
        ∃ e appError,
          exchange abortMessage readTranscript (net (requests w + i)) = Throw e
          ∧ handleApiError e "transcription" = Return appError
          ∧ retryable appError = true) →
     ∃ e appError w' evs,
       exchange abortMessage readTranscript (net (requests w + retryAttempts)) = Throw e
       ∧ handleApiError e "transcription" = Return appError
       ∧ originalError appError = e
       ∧ transcribeAudio baseUrl net audio blobText abortMessage audioBlob
           retryAttempts w = (Throw (ThrownApp appError), w')
       ∧ requests w' = (requests w + retryAttempts + 1)%nat
       ∧ trace w' = (trace w ++ evs)%list
       ∧ countEvents isFetch evs = S retryAttempts
       ∧ countEvents isSleep evs = retryAttempts
       ∧ storage w'
         = (ResponseCache.getCachedTranscription hash (now w) (storage w)).2)
  ∧ (∀ msg : string,
     let hash := ResponseCache.createHash blobText (Text msg) in
     truthy (ResponseCache.getCachedChatResponse hash (now w) (storage w)).1
     = false →
     (∀ i, (i ≤ retryAttempts)%nat →
        ∃ e appError,
          exchange abortMessage readResponse (net (requests w + i)) = Throw e
          ∧ handleApiError e "chat" = Return appError
          ∧ retryable appError = true) →
     ∃ e appError w' evs,
       exchange abortMessage readResponse (net (requests w + retryAttempts)) = Throw e
       ∧ handleApiError e "chat" = Return appError
       ∧ originalError appError = e
       ∧ sendChatMessage baseUrl net blobText abortMessage msg retryAttempts w
         = (Throw (ThrownApp appError), w')
       ∧ requests w' = (requests w + retryAttempts + 1)%nat
       ∧ trace w' = (trace w ++ evs)%list
       ∧ countEvents isFetch evs = S retryAttempts
       ∧ countEvents isSleep evs = retryAttempts
       ∧ storage w'
         = (ResponseCache.getCachedChatResponse hash (now w) (storage w)).2).
Proof.
  assert (Hcount : ∀ url body k a,
    countEvents isFetch
      (flat_map (fun i => [EvFetch url body; EvSleep (getRetryDelay i)])
         (seq a k)) = k
    ∧ countEvents isSleep
        (flat_map (fun i => [EvFetch url body; EvSleep (getRetryDelay i)])
           (seq a k)) = k).
  { intros url body k. unfold countEvents.
    induction k as [|k IH]; intros a; [done|].
    cbn [seq flat_map app List.filter isFetch isSleep length].
    destruct (IH (S a)) as [-> ->]. done. }
  split.
  - intros audioBlob hash Hmiss Hfail.
    destruct (transcribeAudio_miss audioBlob retryAttempts w Hmiss)
      as (processed & evs & Hevs & ->).
    destruct (retryLoop_exhausted (baseUrl ++ "/transcribe")
                (FormData processed "recording.wav") "transcription"
                readTranscript (cacheTranscription hash) retryAttempts
                {| storage := (ResponseCache.getCachedTranscription hash
                                 (now w) (storage w)).2;
                   now := now w; requests := requests w;
                   contexts := contexts w + length evs;
                   trace := trace w ++ evs |} Hfail)
      as (e & appError & He & Ha & Hrun).
    exists e, appError. eexists. eexists.
    split; [exact He|]. split; [exact Ha|].
    split; [by apply handleApiError_originalError in Ha|].
    unfold tryCatchM. fold hash. rewrite Hrun. cbn [rethrowAsAppError].
    unfold throw. split; [reflexivity|].
    cbn [afterFetch requests trace storage].
    destruct (afterRetries_facts (baseUrl ++ "/transcribe")
                (FormData processed "recording.wav") retryAttempts 0
                {| storage := (ResponseCache.getCachedTranscription hash
                                 (now w) (storage w)).2;
                   now := now w; requests := requests w;
                   contexts := contexts w + length evs;
                   trace := trace w ++ evs |})
      as (-> & -> & _ & ->).
    cbn [requests trace storage]. split; [lia|].
    split; [by rewrite <- !app_assoc|].
    destruct (countEvents_processing evs Hevs) as [Hf Hs].
    destruct (Hcount (baseUrl ++ "/transcribe")
                (FormData processed "recording.wav") retryAttempts 0%nat)
      as [Hf' Hs'].
    rewrite !countEvents_app, Hf, Hs, Hf', Hs'. cbn. repeat split; lia.
  - intros msg hash Hmiss Hfail.
    rewrite sendChatMessage_miss by done.
    destruct (retryLoop_exhausted (baseUrl ++ "/chat") (JsonMessage msg) "chat"
                readResponse (cacheChatResponse hash) retryAttempts
                (withStorage (ResponseCache.getCachedChatResponse hash
                                (now w) (storage w)).2 w) Hfail)
      as (e & appError & He & Ha & Hrun).
    exists e, appError. eexists. eexists.
    split; [exact He|]. split; [exact Ha|].
    split; [by apply handleApiError_originalError in Ha|].
    unfold tryCatchM. fold hash. rewrite Hrun. cbn [rethrowAsAppError].
    unfold throw. split; [reflexivity|].
    cbn [afterFetch requests trace storage].
    destruct (afterRetries_facts (baseUrl ++ "/chat") (JsonMessage msg)
                retryAttempts 0
                (withStorage (ResponseCache.getCachedChatResponse hash
                                (now w) (storage w)).2 w))
      as (-> & -> & _ & ->).
    cbn [requests trace storage withStorage]. split; [lia|].
    split; [by rewrite <- !app_assoc|].
    destruct (Hcount (baseUrl ++ "/chat") (JsonMessage msg) retryAttempts
                0%nat) as [Hf' Hs'].
    rewrite !countEvents_app, Hf', Hs'. cbn. repeat split; lia.
Qed.

(** X22. A cache hit has no effect at all: when the store holds a live,
    non-empty entry for the content, the call returns it and leaves the
    state exactly as it was: no request, no audio processing, no sleep,
    no change to the cache or the clock. *)
Theorem cache_hit_is_effect_free (audioBlob : Blob) (msg : string)
    (retryAttempts : nat) (w : World) (item : Cache.CacheItem string) :
  now w ≤ Cache.expiresAt item →
  Cache.data item ≠ "" →
  (storage w !! Cache.createKey "transcription"
                  [ResponseCache.createHash blobText (Binary audioBlob)]
   = Some item →
   transcribeAudio baseUrl net audio blobText abortMessage audioBlob
     retryAttempts w = (Return (Cache.data item), w))
  ∧ (storage w !! Cache.createKey "chat"
                    [ResponseCache.createHash blobText (Text msg)]
     = Some item →
     sendChatMessage baseUrl net blobText abortMessage msg retryAttempts w
     = (Return (Cache.data item), w)).
Proof.
  intros Hlive Hdata. split; intros Hstored.
  - unfold transcribeAudio, tryCatchM, bind.
    rewrite getCachedTranscription_run.
    unfold ResponseCache.getCachedTranscription, Cache.get. rewrite Hstored.
    rewrite bool_decide_eq_false_2 by lia. cbn [fst snd truthy].
    rewrite bool_decide_eq_false_2 by done. cbn [negb].
    by rewrite withStorage_same.
  - unfold sendChatMessage, tryCatchM, bind.
    rewrite getCachedChatResponse_run.
    unfold ResponseCache.getCachedChatResponse, Cache.get. rewrite Hstored.
    rewrite bool_decide_eq_false_2 by lia. cbn [fst snd truthy].
    rewrite bool_decide_eq_false_2 by done. cbn [negb].
    by rewrite withStorage_same.
Qed.

(** A retry loop of [sendChatMessage] that returns has just written its
    result to the cache, with the chat TTL. *)
Lemma retryLoop_success_stores_chat url body context (messageHash : string)
    (retryAttempts : nat) (attempts : list nat) (w w' : World) (t : string) :
  retryLoop net abortMessage url body context readResponse
    (cacheChatResponse messageHash) retryAttempts attempts w = (Return t, w') →
  storage w' !! Cache.createKey "chat" [messageHash]
  = Some {| Cache.data := t; Cache.timestamp := now w';
            Cache.expiresAt := now w' + ResponseCache.CHAT_TTL |}.
Proof.
  revert w. induction attempts as [|attempt rest IH]; intros w.
  - cbn [retryLoop]. unfold bind, liftRaw.
    by destruct (handleApiError _ context).
  - cbn [retryLoop]. unfold tryCatchM. rewrite attemptOnce_exchange.
    destruct (exchange abortMessage readResponse (net (requests w)))
      as [text|e].
    + unfold bind, cacheChatResponse, ret. intros [= <- <-].
      cbn [withStorage storage now].
      unfold ResponseCache.cacheChatResponse. rewrite lookup_set_eq.
      rewrite bool_decide_eq_false_2; [done|].
      unfold ResponseCache.CHAT_TTL. lia.
    + unfold bind, classify, liftRaw.
      destruct (handleApiError e context) as [appError|e']; [|done].
      destruct (_ || _); [done|]. unfold sleep. apply IH.
Qed.

(** X12. The cache is addressed by the hash alone: once a message has
    been answered (with a non-empty response), any message with the same
    hash, sent while the entry is live, gets that same response from the
    cache without a request, whether or not the two messages are equal. *)
Theorem colliding_messages_share_responses (msg msg' : string)
    (retryAttempts retryAttempts' : nat) (w0 w1 w2 : World) (text : string) :
  ResponseCache.createHash blobText (Text msg')
  = ResponseCache.createHash blobText (Text msg) →
  truthy (ResponseCache.getCachedChatResponse
            (ResponseCache.createHash blobText (Text msg))
            (now w0) (storage w0)).1 = false →
  sendChatMessage baseUrl net blobText abortMessage msg retryAttempts w0
  = (Return text, w1) →
  text ≠ "" →
  storage w2 = storage w1 →
  now w2 ≤ now w1 + ResponseCache.CHAT_TTL →
  sendChatMessage baseUrl net blobText abortMessage msg' retryAttempts' w2
  = (Return text, w2).
Proof.
  intros Hhash Hmiss Hfirst Htext Hstorage Hnow.
  assert (Hentry :
    storage w1 !! Cache.createKey "chat"
                    [ResponseCache.createHash blobText (Text msg)]
    = Some {| Cache.data := text; Cache.timestamp := now w1;
              Cache.expiresAt := now w1 + ResponseCache.CHAT_TTL |}).
  { revert Hfirst. rewrite sendChatMessage_miss by done. unfold tryCatchM.
    destruct (retryLoop _ _ _ _ _ _ _ _ _ _) as [[t'|thrown] wl] eqn:Hloop.
    - intros [= <- <-]. by apply retryLoop_success_stores_chat in Hloop.
    - destruct (rethrowAsAppError_throws "chat" thrown wl) as [x ->]. done. }
  unfold sendChatMessage, tryCatchM, bind.
  rewrite getCachedChatResponse_run, Hhash.
  unfold ResponseCache.getCachedChatResponse, Cache.get.
  rewrite Hstorage, Hentry. cbn [Cache.expiresAt Cache.data].
  rewrite bool_decide_eq_false_2 by lia. cbn [fst snd].
  rewrite <- Hstorage, withStorage_same. unfold truthy.
  rewrite bool_decide_eq_false_2 by done. done.
Qed.

End ClientMore.

Lemma retried_call_succeeds_witness :
  ∃ w',
    ApiClient.sendChatMessage "http://localhost:8000"
      (Scenario.refusesThenAnswers 2 503 "hello") Scenario.latin1 "aborted"
      "hi" 3 Scenario.freshWorld = (Return "hello", w')
    ∧ ApiClient.requests w' = 3%nat.
Proof.
  destruct (retried_call_succeeds (Sample := Z) "http://localhost:8000"
              (Scenario.refusesThenAnswers 2 503 "hello")
              (fun _ => Scenario.noWebAudio) Scenario.latin1 "aborted"
              2 3 Scenario.freshWorld "hello") as [_ Hchat].
  - lia.
  - destruct (Hchat "hi") as (w' & Hrun & Hreq & _).
    + reflexivity.
    + intros i Hi. destruct i as [|[|i]]; [| |lia];
        eexists _, _; (split; [reflexivity|]); split; reflexivity.
    + reflexivity.
    + exists w'. split; [exact Hrun | exact Hreq].
Defined.

Lemma exhausted_call_throws_last_failure_witness :
  ∃ appError w',
    ApiClient.sendChatMessage "http://localhost:8000" (Scenario.refuses 503)
      Scenario.latin1 "aborted" "hi" 1 Scenario.freshWorld
    = (Throw (ApiClient.ThrownApp appError), w')
    ∧ ApiClient.requests w' = 2%nat.
Proof.
  destruct (exhausted_call_throws_last_failure (Sample := Z)
              "http://localhost:8000" (Scenario.refuses 503)
              (fun _ => Scenario.noWebAudio) Scenario.latin1 "aborted"
              1 Scenario.freshWorld) as [_ Hchat].
  destruct (Hchat "hi") as (e & appError & w' & evs & _ & _ & _ & Hrun & Hreq & _).
  - reflexivity.
  - intros i Hi. eexists _, _. split; [reflexivity|]. split; reflexivity.
  - exists appError, w'. split; [exact Hrun | exact Hreq].
Defined.

Lemma cache_hit_is_effect_free_witness :
  let w :=
    {| ApiClient.storage :=
         <[Cache.createKey "chat" [ResponseCache.createHash Scenario.latin1
                                     (Text "hi")]
           := Cache.mkCacheItem "cached" 0 100]> ∅;
       ApiClient.now := 50; ApiClient.requests := 0;
       ApiClient.contexts := 0; ApiClient.trace := [] |} in
  ApiClient.sendChatMessage "http://localhost:8000" Scenario.stalls
    Scenario.latin1 "aborted" "hi" 3 w = (Return "cached", w).
Proof.
  intros w.
  apply (cache_hit_is_effect_free (Sample := Z) "http://localhost:8000"
           Scenario.stalls (fun _ => Scenario.noWebAudio) Scenario.latin1
           "aborted" (mkBlob [] "audio/wav") "hi" 3 w
           (Cache.mkCacheItem "cached" 0 100)).
  - simpl. lia.
  - done.
  - apply lookup_insert_eq.
Defined.

Lemma colliding_messages_share_responses_witness :
  let first :=
    ApiClient.sendChatMessage "http://localhost:8000" (Scenario.answers "reply")
      Scenario.latin1 "aborted" "Aa" 3 Scenario.freshWorld in
  "Aa" ≠ "BB"
  ∧ ApiClient.sendChatMessage "http://localhost:8000" (Scenario.answers "reply")
      Scenario.latin1 "aborted" "BB" 3 first.2
    = (Return "reply", first.2).
Proof.
  intros first. split; [discriminate|].
  apply (colliding_messages_share_responses "http://localhost:8000"
           (Scenario.answers "reply") Scenario.latin1 "aborted" "Aa" "BB" 3 3
           Scenario.freshWorld first.2 first.2 "reply").
  - reflexivity.
  - reflexivity.
  - by vm_compute.
  - discriminate.
  - reflexivity.
  - unfold ResponseCache.CHAT_TTL. lia.
Defined.

(** ** The caller *)

Section AppFacts.
Import ErrorHandler ApiClient.
Context {Sample : Type} `{AudioProcessor.FloatOps Sample}.
Variable baseUrl : string.
Variable net : nat -> NetReply.
Variable audio : nat -> AudioProcessor.AudioContext Sample.
Variable blobText : list Z -> list Z.
Variable abortMessage : string.

(** What the [catch] of [processAudio] makes of an [AppError]. *)
Lemma reportedError_AppError (a : AppError) :
  App.reportedError (ThrownApp a)
  = Return {| type := UNKNOWN_ERROR;
              message := "An unexpected error occurred. Please try again.";
              originalError := appErrorAsRaw a;
              retryable := true |}.
Proof. reflexivity. Qed.

(** X23. [processAudio] of the application never throws, and it never
    shows the classification that the client made: the [AppError] thrown
    by [transcribeAudio] or [sendChatMessage] is classified again, as a
    value without status in the context "processing", so that every
    failure, a 401 as well as a timeout, is handed to [setError] as a
    retryable [UNKNOWN_ERROR] with the generic message. When the
    transcription fails, no chat request is made; when both calls return,
    their two results are the messages shown. *)
Theorem app_reports_every_failure_as_unknown (audioBlob : Blob) (w : World) :
  ∃ r w',
    App.processAudio baseUrl net audio blobText abortMessage audioBlob w
    = (Return r, w')
    ∧ (∀ a, r = inl a →
         type a = UNKNOWN_ERROR ∧ retryable a = true
         ∧ message a = "An unexpected error occurred. Please try again.")
    ∧ (∀ a wt,
         transcribeAudio baseUrl net audio blobText abortMessage audioBlob
           ENV_CONFIG.RETRY_ATTEMPTS w = (Throw (ThrownApp a), wt) →
         w' = wt ∧ ∃ shown, r = inl shown ∧ originalError shown = appErrorAsRaw a)
    ∧ (∀ text wt reply wc,
         transcribeAudio baseUrl net audio blobText abortMessage audioBlob
           ENV_CONFIG.RETRY_ATTEMPTS w = (Return text, wt) →
         sendChatMessage baseUrl net blobText abortMessage text
           ENV_CONFIG.RETRY_ATTEMPTS wt = (Return reply, wc) →
         r = inr (text, reply) ∧ w' = wc).
Proof.
  unfold App.processAudio, tryCatchM, bind.
  destruct (transcribeAudio_outcome baseUrl net audio blobText abortMessage
              audioBlob ENV_CONFIG.RETRY_ATTEMPTS w)
    as [(text & wt & ->)|(a & wt & ->)].
  - destruct (sendChatMessage_outcome baseUrl net blobText abortMessage
                text ENV_CONFIG.RETRY_ATTEMPTS wt)
      as [(reply & wc & Hchat)|(a & wc & Hchat)]; rewrite Hchat.
    + eexists _, _. split; [reflexivity|]. split; [done|]. split; [done|].
      intros text' wt' reply' wc' [= <- <-]. rewrite Hchat.
      by intros [= <- <-].
    + unfold liftRaw. rewrite reportedError_AppError.
      eexists _, _. split; [reflexivity|].
      split; [by intros ? [= <-]|]. split; [done|].
      intros text' wt' reply' wc' [= <- <-]. by rewrite Hchat.
  - unfold liftRaw. rewrite reportedError_AppError.
    eexists _, _. split; [reflexivity|].
    split; [by intros ? [= <-]|]. split; [|done].
    intros a' wt' [= <- <-]. split; [done|]. by eexists.
Qed.

End AppFacts.

Lemma app_reports_every_failure_as_unknown_witness :
  ∃ shown w',
    App.processAudio "http://localhost:8000" (Scenario.refuses 401)
      (fun _ => Scenario.noWebAudio) Scenario.latin1 "aborted"
      (mkBlob [1; 2; 3] "audio/wav") Scenario.freshWorld
    = (Return (inl shown), w')
    ∧ type shown = UNKNOWN_ERROR ∧ retryable shown = true
    ∧ ApiClient.requests w' = 1%nat.
Proof.
  destruct (app_reports_every_failure_as_unknown "http://localhost:8000"
              (Scenario.refuses 401) (fun _ => Scenario.noWebAudio)
              Scenario.latin1 "aborted" (mkBlob [1; 2; 3] "audio/wav")
              Scenario.freshWorld)
    as (r & w' & Hrun & Hshown & Hfail & _).
  destruct (Hfail (ErrorHandler.createError API_ERROR
                     "Authentication failed. Please check your API key."
                     (JsObject (mkErrorObject false "Error" "refused"
                                  (Some 401))) false)
              (ApiClient.afterFetch (Scenario.refuses 401)
                 "http://localhost:8000/transcribe"
                 (ApiClient.FormData (mkBlob [1; 2; 3] "audio/wav")
                    "recording.wav")
                 {| ApiClient.storage := ∅; ApiClient.now := 0;
                    ApiClient.requests := 0; ApiClient.contexts := 1;
                    ApiClient.trace :=
                      [ApiClient.EvNoiseReduction
                         (mkBlob [1; 2; 3] "audio/wav")] |}))
    as (-> & shown & -> & _).
  - by vm_compute.
  - exists shown. eexists. split; [exact Hrun|].
    destruct (Hshown shown eq_refl) as (Hty & Hretry & _).
    split; [exact Hty|]. split; [exact Hretry | reflexivity].
Defined.

(** ** More on the audio processor *)

Section AudioMore.
Import AudioProcessor.
Context {Sample : Type} `{FloatOps Sample}.

Lemma uint16le_value (v : Z) :
  v mod 256 + 256 * ((v / 256) mod 256) = v mod 65536.
Proof.
  replace 65536 with (256 * 256) by done.
  rewrite Z.rem_mul_r by lia. lia.
Qed.

Lemma length_wavHeader (chans len : nat) (rate : Z) :
  length (wavHeader chans len rate) = 44%nat.
Proof. reflexivity. Qed.

Lemma length_flat_map_const {A B : Type} (f : A → list B) (l : list A) (m : nat) :
  (∀ x, length (f x) = m) → length (flat_map f l) = (length l * m)%nat.
Proof.
  intros Hf. induction l as [|x l IH]; [done|].
  cbn [flat_map length]. rewrite length_app, Hf, IH. lia.
Qed.

Lemma length_pcmData (b : AudioBuffer Sample) (quality : Q) :
  length (pcmData b quality)
  = (bufferLength b * (numberOfChannels b * 2))%nat.
Proof.
  unfold pcmData. rewrite (length_flat_map_const _ _ (numberOfChannels b * 2)).
  - by rewrite length_seq.
  - intros i. rewrite (length_flat_map_const _ _ 2); [|done].
    by rewrite length_seq.
Qed.

Lemma size_audioBufferToBlob (b : AudioBuffer Sample) (quality : Q) :
  size (audioBufferToBlob b quality)
  = 44 + 2 * Z.of_nat (bufferLength b) * Z.of_nat (numberOfChannels b).
Proof.
  unfold size, audioBufferToBlob. cbn [blobBytes].
  rewrite length_app, length_wavHeader, length_pcmData. lia.
Qed.

Lemma byte_range_flat_map {A : Type} (f : A → list Z) (l : list A) :
  (∀ x, Forall (fun v => 0 ≤ v < 256) (f x)) →
  Forall (fun v => 0 ≤ v < 256) (flat_map f l).
Proof.
  intros Hf. induction l as [|x l IH]; [constructor|].
  cbn [flat_map]. apply Forall_app. auto.
Qed.

(** X24. The blob that [audioBufferToBlob] builds is a 44-byte header
    followed by two bytes per sample and channel: its size is
    [44 + 2 * length * numberOfChannels], its type is "audio/wav", it
    starts with "RIFF", and every element is a byte. *)
Theorem wav_blob_layout (b : AudioBuffer Sample) (quality : Q) :
  size (audioBufferToBlob b quality)
  = 44 + 2 * Z.of_nat (bufferLength b) * Z.of_nat (numberOfChannels b)
  ∧ blobType (audioBufferToBlob b quality) = "audio/wav"
  ∧ take 4 (blobBytes (audioBufferToBlob b quality)) = [82; 73; 70; 70]
  ∧ Forall (fun v => 0 ≤ v < 256) (blobBytes (audioBufferToBlob b quality)).
Proof.
  split; [apply size_audioBufferToBlob|]. split; [done|]. split; [done|].
  unfold audioBufferToBlob. cbn [blobBytes]. apply Forall_app. split.
  - unfold wavHeader, uint32le, uint16le.
    change (writeString "RIFF") with [82; 73; 70; 70].
    change (writeString "WAVE") with [87; 65; 86; 69].
    change (writeString "fmt ") with [102; 109; 116; 32].
    change (writeString "data") with [100; 97; 116; 97].
    cbn [app].
    repeat (constructor; [first [lia | apply Z.mod_pos_bound; lia]|]).
    constructor.
  - unfold pcmData. apply byte_range_flat_map. intros i.
    apply byte_range_flat_map. intros channel. unfold uint16le.
    repeat (constructor; [apply Z.mod_pos_bound; lia|]). constructor.
Qed.

(** X25. The header can be read back: format tag 1 (PCM), 16 bits per
    sample, the channel count, the sample rate, the block alignment
    [2 * channels], the byte rate [rate * channels * 2] and the data
    length are where a WAV reader looks for them; and when the blob is
    smaller than 4 GiB the two chunk sizes agree with its real size: the
    RIFF size is [size - 8] and the data size is [size - 44]. *)
Theorem wav_header_fields (b : AudioBuffer Sample) (quality : Q) :
  let bytes := blobBytes (audioBufferToBlob b quality) in
  let c := Z.of_nat (numberOfChannels b) in
  let n := Z.of_nat (bufferLength b) in
  getUint32 16 bytes = Some 16
  ∧ getUint16 20 bytes = Some 1
  ∧ getUint16 22 bytes = Some (c mod 65536)
  ∧ getUint32 24 bytes = Some (sampleRate b mod 2 ^ 32)
  ∧ getUint32 28 bytes = Some ((sampleRate b * c * 2) mod 2 ^ 32)
  ∧ getUint16 32 bytes = Some ((c * 2) mod 65536)
  ∧ getUint16 34 bytes = Some 16
  ∧ getUint32 4 bytes = Some ((36 + n * c * 2) mod 2 ^ 32)
  ∧ getUint32 40 bytes = Some ((n * c * 2) mod 2 ^ 32)
  ∧ (size (audioBufferToBlob b quality) < 2 ^ 32 →
     getUint32 4 bytes = Some (size (audioBufferToBlob b quality) - 8)
     ∧ getUint32 40 bytes = Some (size (audioBufferToBlob b quality) - 44)).
Proof.
  intros bytes c n.
  assert (Hfields :
    getUint32 16 bytes = Some 16
    ∧ getUint16 20 bytes = Some 1
    ∧ getUint16 22 bytes = Some (c mod 65536)
    ∧ getUint32 24 bytes = Some (sampleRate b mod 2 ^ 32)
    ∧ getUint32 28 bytes = Some ((sampleRate b * c * 2) mod 2 ^ 32)
    ∧ getUint16 32 bytes = Some ((c * 2) mod 65536)
    ∧ getUint16 34 bytes = Some 16
    ∧ getUint32 4 bytes = Some ((36 + n * c * 2) mod 2 ^ 32)
    ∧ getUint32 40 bytes = Some ((n * c * 2) mod 2 ^ 32)).
  { unfold bytes, getUint32, getUint16, audioBufferToBlob, wavHeader.
    cbn [blobBytes]. fold c. fold n.
    change (writeString "RIFF") with [82; 73; 70; 70].
    change (writeString "WAVE") with [87; 65; 86; 69].
    change (writeString "fmt ") with [102; 109; 116; 32].
    change (writeString "data") with [100; 97; 116; 97].
    unfold uint32le, uint16le. cbn [app drop].
    repeat split; f_equal;
      first [reflexivity | apply uint32le_value | apply uint16le_value]. }
  destruct Hfields as (H16 & H20 & H22 & H24 & H28 & H32 & H34 & H4 & H40).
  repeat (split; [done|]).
  rewrite H4, H40, size_audioBufferToBlob. fold c. fold n. intros Hsmall.
  rewrite !Z.mod_small by lia. split; f_equal; lia.
Qed.

(** The channel count and the block alignment in the header. *)
Lemma wav_channel_fields (b : AudioBuffer Sample) (quality : Q) :
  getUint16 22 (blobBytes (audioBufferToBlob b quality))
  = Some (Z.of_nat (numberOfChannels b) mod 65536)
  ∧ getUint16 32 (blobBytes (audioBufferToBlob b quality))
    = Some ((Z.of_nat (numberOfChannels b) * 2) mod 65536).
Proof.
  unfold getUint16, audioBufferToBlob, wavHeader. cbn [blobBytes].
  change (writeString "RIFF") with [82; 73; 70; 70].
  change (writeString "WAVE") with [87; 65; 86; 69].
  change (writeString "fmt ") with [102; 109; 116; 32].
  change (writeString "data") with [100; 97; 116; 97].
  unfold uint32le, uint16le. cbn [app drop].
  split; f_equal; apply uint16le_value.
Qed.

(** X27. Each processing step completes when the browser operations of
    its [try] block succeed, and returns its argument when there is no
    decoded buffer for which they do. Noise reduction that completes
    re-encodes all frames and channels of the decoded buffer at its
    rate: its output is an "audio/wav" blob of
    [44 + 2 * length * channels] bytes, whatever the size of its input.
    Compression that completes yields an "audio/wav" blob marked as
    mono, two bytes per frame, at the rate [min(rate, 22050)]. *)
Theorem processed_blob_sizes (ctx : AudioContext Sample) (blob : Blob)
    (quality : Q) :
  (∀ buf, noiseReductionCompletes ctx blob buf →
     ∃ out,
       applyNoiseReduction ctx blob = Return out
       ∧ blobType out = "audio/wav"
       ∧ size out
         = 44 + 2 * Z.of_nat (bufferLength buf) * Z.of_nat (numberOfChannels buf)
       ∧ getUint16 22 (blobBytes out)
         = Some (Z.of_nat (numberOfChannels buf) mod 65536)
       ∧ wavSampleRate out = Some (sampleRate buf mod 2 ^ 32))
  ∧ ((∀ buf, ¬ noiseReductionCompletes ctx blob buf) →
     applyNoiseReduction ctx blob = Return blob)
  ∧ (∀ buf, compressionCompletes ctx blob buf →
     ∃ out,
       compressAudio ctx blob quality = Return out
       ∧ blobType out = "audio/wav"
       ∧ getUint16 22 (blobBytes out) = Some 1
       ∧ getUint16 32 (blobBytes out) = Some 2
       ∧ wavSampleRate out = Some (Z.min (sampleRate buf) 22050 mod 2 ^ 32))
  ∧ ((∀ buf, ¬ compressionCompletes ctx blob buf) →
     compressAudio ctx blob quality = Return blob).
Proof.
  split; [|split; [|split]].
  - intros buf Hbuf.
    destruct (noiseReductionBody_completes ctx blob buf Hbuf)
      as (filtered & Hbody & Hrate & Hlen & Hchans).
    exists (audioBufferToBlob filtered (8 # 10)).
    split; [by rewrite applyNoiseReduction_by_body, Hbody|].
    split; [done|].
    split; [by rewrite size_audioBufferToBlob, Hlen, Hchans|].
    split; [by rewrite (proj1 (wav_channel_fields _ _)), Hchans|].
    by rewrite wavSampleRate_audioBufferToBlob, Hrate.
  - intros Hnone. by destruct (applyNoiseReduction_falls_back ctx blob Hnone).
  - intros buf Hbuf.
    destruct (compressBody_completes ctx blob quality buf Hbuf)
      as (compressed & Hbody & Hrate & Hlen & Hchans).
    exists (audioBufferToBlob compressed quality).
    split; [by rewrite compressAudio_by_body, Hbody|].
    split; [done|].
    destruct (wav_channel_fields compressed quality) as [H22 H32].
    rewrite H22, H32, Hchans.
    split; [done|]. split; [done|].
    by rewrite wavSampleRate_audioBufferToBlob, Hrate.
  - intros Hnone.
    by destruct (compressAudio_falls_back ctx blob quality Hnone).
Qed.

End AudioMore.

Lemma wav_header_fields_witness :
  AudioProcessor.getUint32 4
    (blobBytes (AudioProcessor.audioBufferToBlob
                  (AudioProcessor.mkAudioBuffer 48000 3 [[1; 2; 3]; [4; 5; 6]])
                  (8 # 10)))
  = Some (size (AudioProcessor.audioBufferToBlob
                  (AudioProcessor.mkAudioBuffer 48000 3 [[1; 2; 3]; [4; 5; 6]])
                  (8 # 10)) - 8).
Proof.
  destruct (wav_header_fields
              (AudioProcessor.mkAudioBuffer 48000 3 [[1; 2; 3]; [4; 5; 6]])
              (8 # 10)) as (_ & _ & _ & _ & _ & _ & _ & _ & _ & Hsizes).
  apply Hsizes. by vm_compute.
Defined.

(** ** The backoff of a call *)

Section ClientBackoff.
Import ErrorHandler ApiClient.
Context {Sample : Type} `{AudioProcessor.FloatOps Sample}.
Variable baseUrl : string.
Variable net : nat -> NetReply.
Variable audio : nat -> AudioProcessor.AudioContext Sample.
Variable blobText : list Z -> list Z.
Variable abortMessage : string.






End ClientBackoff.


Lemma handleApiError_classification_witness :
  ∃ a, ErrorHandler.handleApiError
         (JsObject (mkErrorObject true "TypeError" "Failed to fetch" None))
         "chat" = Return a
       ∧ type a = NETWORK_ERROR.
Proof.
  destruct (handleApiError_classification
              (mkErrorObject true "TypeError" "Failed to fetch" None) "chat")
    as (a & Ha & _ & Hnet & _).
  exists a. split; [exact Ha|]. apply Hnet. reflexivity.
Defined.

Lemma handleMicrophoneError_table_witness :
  ∃ a, ErrorHandler.handleMicrophoneError
         (JsObject (mkErrorObject false "NotFoundError"
                      "Requested device not found" None)) = Return a
       ∧ retryable a = false.
Proof.
  destruct (handleMicrophoneError_table
              (mkErrorObject false "NotFoundError"
                 "Requested device not found" None))
    as ((a & Ha & _ & _ & Hretry) & _).
  exists a. split; [exact Ha|]. apply Hretry. right. left. reflexivity.
Defined.

Lemma shouldRetry_decides_witness :
  ErrorHandler.shouldRetry
    (ErrorHandler.createError API_ERROR "Server error. Please try again later."
       JsUndefined true) 2 3 = true.
Proof.
  apply shouldRetry_decides. split; [reflexivity | lia].
Defined.

Lemma getStats_counts_stored_witness :
  "k" ∈ (Cache.getStats (<["k" := Cache.mkCacheItem "v" 0 3]> ∅)).2.
Proof.
  apply getStats_counts_stored. rewrite lookup_insert_eq. by eexists.
Defined.
